(** * PandaPuppy: the entry classifier of [scripts/classify_entries.py]

    A shallow embedding of the similarity-based matching engine
    ([normalize_text], [calculate_similarity], [find_best_match],
    [classify_entries]) and the properties its specification states.

    Conventions of the embedding.
    - A Python [str] is a [string]; its characters are the code points
      below 256, for which the tables of [str.lower] and of Unicode
      whitespace ([str.isspace], [str.strip], [str.split], the regular
      expression class [\s]) are written out below.
    - A cell of a data frame is a [pyval]: a [str] or something else
      (a missing cell is a NaN, a numeric column holds numbers). A table
      is the list of its rows, in order, each row a record of the required
      columns; account types are [str].
    - A float is the rational number it denotes, in lowest terms ([Qc]),
      so that [==] and [>] on scores are equality and order of rationals.
      The score [intersection / union] is the quotient of two ints rounded
      to a significand of 53 bits, ties to even; the exponents of binary64
      are not bounded here, and no quotient of two lengths leaves them.
    - An exception is a value of [exn]; the orchestrator runs in a small
      monad that threads a log of the calls made to the matcher. The only
      exception the rows above can cause is the [TypeError] of subscripting
      [None]; a cell of the column [Account Type] that is not a [str]
      makes [.lower()] raise [AttributeError], and is not a value of
      [EntryRow]. *)

From Stdlib Require Import Ascii String ZArith QArith Qcanon.
From stdpp Require Import base numbers list strings gmap.

Local Open Scope string_scope.

(** ** Characters *)

(** Unicode whitespace below 256: TAB..CR, FS..US, SPACE, NEL, NBSP. *)
Definition isspace (c : ascii) : bool :=
  let n := N_of_ascii c in
  ((9 <=? n) && (n <=? 13) || (28 <=? n) && (n <=? 32)
   || (n =? 133) || (n =? 160))%N.

(** [str.lower] on one code point below 256: A..Z and the Latin-1 capitals
    (all of U+00C0..U+00DE but the multiplication sign U+00D7). *)
Definition lower_char (c : ascii) : ascii :=
  let n := N_of_ascii c in
  if ((65 <=? n) && (n <=? 90)
      || (192 <=? n) && (n <=? 222) && negb (n =? 215))%N
  then ascii_of_N (n + 32) else c.

Definition space : ascii := " "%char.

(** ** The string methods the program calls, on lists of characters *)

Module Chars.

Definition lower (s : list ascii) : list ascii := map lower_char s.

Fixpoint lstrip (s : list ascii) : list ascii :=
  match s with
  | [] => []
  | c :: s' => if isspace c then lstrip s' else s
  end.

Fixpoint rstrip (s : list ascii) : list ascii :=
  match s with
  | [] => []
  | c :: s' =>
      match rstrip s' with
      | [] => if isspace c then [] else [c]
      | r => c :: r
      end
  end.

(** [s.strip()] *)
Definition strip (s : list ascii) : list ascii := rstrip (lstrip s).

(** [re.sub(r'\s+', ' ', s)]: [in_run] tells that the previous character
    belonged to a run of whitespace whose replacement was already
    written. *)
Fixpoint sub_ws_run (in_run : bool) (s : list ascii) : list ascii :=
  match s with
  | [] => []
  | c :: s' =>
      if isspace c
      then (if in_run then sub_ws_run true s'
            else space :: sub_ws_run true s')
      else c :: sub_ws_run false s'
  end.

Definition sub_ws (s : list ascii) : list ascii := sub_ws_run false s.

(** [s.split()]: the maximal runs of characters that are not whitespace,
    in order. A character that is not whitespace opens a token when
    whitespace or the end follows it, and joins the token of its
    successor otherwise. *)
Fixpoint split (s : list ascii) : list (list ascii) :=
  match s with
  | [] => []
  | c :: s' =>
      if isspace c then split s'
      else match s' with
           | [] => [[c]]
           | c' :: _ =>
               if isspace c' then [c] :: split s'
               else match split s' with
                    | w :: ws => (c :: w) :: ws
                    | [] => [[c]]
                    end
           end
  end.

(** [' '.join(ws)] *)
Fixpoint join (ws : list (list ascii)) : list ascii :=
  match ws with
  | [] => []
  | [w] => w
  | w :: ws' => w ++ space :: join ws'
  end.

(** A token: not empty, no whitespace in it. *)
Definition token (w : list ascii) : Prop :=
  w ≠ [] ∧ Forall (λ c, isspace c = false) w.

(** A text that does not begin in the middle of a token. *)
Definition at_boundary (s : list ascii) : Prop :=
  match s with [] => True | c :: _ => isspace c = true end.

End Chars.

(** The same methods on [string]. *)
Definition on_chars (f : list ascii → list ascii) (s : string) : string :=
  string_of_list_ascii (f (list_ascii_of_string s)).

Definition lower : string → string := on_chars Chars.lower.
Definition strip : string → string := on_chars Chars.strip.
Definition re_sub_ws : string → string := on_chars Chars.sub_ws.
Definition split (s : string) : list string :=
  map string_of_list_ascii (Chars.split (list_ascii_of_string s)).
Definition join_space (ws : list string) : string :=
  string_of_list_ascii (Chars.join (map list_ascii_of_string ws)).

(** ** Values and rows *)

Inductive pyval : Type :=
  | PyStr (s : string)
  | PyInt (z : Z)
  | PyNaN
  | PyNone.

Definition isinstance_str (v : pyval) : bool :=
  match v with PyStr _ => true | _ => false end.

(** A row of the classification tree: columns [Account Type],
    [Primary Classification], [Secondary Classification],
    [Tertiary Classification]. *)
Record ClassificationRow : Type := {
  Account_Type : string;
  Primary_Classification : pyval;
  Secondary_Classification : pyval;
  Tertiary_Classification : pyval
}.

(** A row of the entries table: columns [Entry Name], [Account Type]. *)
Record EntryRow : Type := {
  Entry_Name : pyval;
  Entry_Account_Type : string
}.

(** ** normalize_text *)

Definition normalize_text (text : pyval) : string :=
  match text with
  | PyStr s => re_sub_ws (strip (lower s))
  | _ => EmptyString
  end.

(** The normalizer in the words of its contract: lowercase, collapse every
    run of whitespace to one space, strip both ends. *)
Definition spec_normalize (text : pyval) : string :=
  match text with
  | PyStr s => strip (re_sub_ws (lower s))
  | _ => EmptyString
  end.

(** ** calculate_similarity *)

(** The nearest integer to [a / b], for [b > 0]; a tie goes to the even
    one. *)
Definition round_half_even (a b : Z) : Z :=
  let q := (a / b)%Z in
  let r := (a mod b)%Z in
  if (2 * r <? b)%Z then q
  else if (b <? 2 * r)%Z then (q + 1)%Z
  else if Z.even q then q else (q + 1)%Z.

(** [n / m] on two ints, for [n >= 0] and [m > 0]: the float nearest to
    the quotient. With [t] such that [1 <= (n / m) * 2 ^ t < 2], the
    quotient scaled by [2 ^ (52 + t)] is rounded to an integer, which is
    the significand of the result. *)
Definition int_true_div (n m : Z) : Qc :=
  if (n =? 0)%Z then 0%Qc
  else
    let t0 := (Z.log2 m - Z.log2 n)%Z in
    let t := if (m * 2 ^ Z.max 0 (- t0) <=? n * 2 ^ Z.max 0 t0)%Z
             then t0 else (t0 + 1)%Z in
    let s := (52 + t)%Z in
    let mant := round_half_even (n * 2 ^ Z.max 0 s) (m * 2 ^ Z.max 0 (- s)) in
    Q2Qc (Qmake (mant * 2 ^ Z.max 0 (- s)) (Z.to_pos (2 ^ Z.max 0 s))).

Definition token_set (text : pyval) : gset string :=
  list_to_set (split (normalize_text text)).

Definition calculate_similarity (text1 text2 : pyval) : Qc :=
  let set1 := token_set text1 in
  let set2 := token_set text2 in
  if bool_decide (set1 = ∅) || bool_decide (set2 = ∅) then 0%Qc
  else
    let intersection := Z.of_nat (size (set1 ∩ set2)) in
    let union := Z.of_nat (size (set1 ∪ set2)) in
    if bool_decide (0 < union)%Z then int_true_div intersection union
    else 0%Qc.

(** [max(a, b, c)]: the first of the largest arguments. *)
Definition py_max (a b : Qc) : Qc := if bool_decide (a < b)%Qc then b else a.
Definition py_max3 (a b c : Qc) : Qc := py_max (py_max a b) c.

(** ** find_best_match *)

(** The dict built for the best row. *)
Record BestMatch : Type := {
  bm_accountType : string;
  bm_primaryClassification : pyval;
  bm_secondaryClassification : pyval;
  bm_tertiaryClassification : pyval
}.

Definition match_of_row (row : ClassificationRow) : BestMatch :=
  {| bm_accountType := Account_Type row;
     bm_primaryClassification := Primary_Classification row;
     bm_secondaryClassification := Secondary_Classification row;
     bm_tertiaryClassification := Tertiary_Classification row |}.

(** The score of one row against the (already normalized) entry. *)
Definition row_similarity (entry : string) (row : ClassificationRow) : Qc :=
  let primary_sim :=
    calculate_similarity (PyStr entry) (Primary_Classification row) in
  let secondary_sim :=
    calculate_similarity (PyStr entry) (Secondary_Classification row) in
  let tertiary_sim :=
    calculate_similarity (PyStr entry) (Tertiary_Classification row) in
  py_max3 primary_sim secondary_sim tertiary_sim.

(** One turn of the loop over the rows, on the pair
    [(best_match, max_similarity)]. *)
Definition best_match_step (entry : string)
    (st : option BestMatch * Qc) (row : ClassificationRow)
    : option BestMatch * Qc :=
  let '(best_match, max_similarity) := st in
  let similarity := row_similarity entry row in
  if bool_decide (max_similarity < similarity)%Qc
  then (Some (match_of_row row), similarity)
  else (best_match, max_similarity).

Definition find_best_match (entry : pyval)
    (classifications : list ClassificationRow) : option BestMatch * Qc :=
  let entry := normalize_text entry in
  fold_left (best_match_step entry) classifications (None, 0%Qc).

(** The matcher with the raw entry name handed to every comparison, none
    normalized beforehand. *)
Definition row_similarity_raw (entry : pyval) (row : ClassificationRow) : Qc :=
  py_max3 (calculate_similarity entry (Primary_Classification row))
          (calculate_similarity entry (Secondary_Classification row))
          (calculate_similarity entry (Tertiary_Classification row)).

Definition best_match_step_raw (entry : pyval)
    (st : option BestMatch * Qc) (row : ClassificationRow)
    : option BestMatch * Qc :=
  let '(best_match, max_similarity) := st in
  let similarity := row_similarity_raw entry row in
  if bool_decide (max_similarity < similarity)%Qc
  then (Some (match_of_row row), similarity)
  else (best_match, max_similarity).

Definition find_best_match_raw (entry : pyval)
    (classifications : list ClassificationRow) : option BestMatch * Qc :=
  fold_left (best_match_step_raw entry) classifications (None, 0%Qc).

(** ** classify_entries *)

(** The dict appended to [results]. *)
Record Classification : Type := {
  entryName : pyval;
  accountType : string;
  primaryClassification : pyval;
  secondaryClassification : pyval;
  tertiaryClassification : pyval;
  confidence : Qc;
  masterSheet : string
}.

(** Subscripting [None] raises [TypeError]. *)
Inductive exn : Type :=
  | TypeError.

(** A call of the matcher, with its arguments. *)
Inductive event : Type :=
  | Call_find_best_match (entry : pyval) (classifications : list ClassificationRow).

(** Computations that may raise and that log the matcher's calls, oldest
    first. *)
Definition M (A : Type) : Type := list event → (exn + A) * list event.

Definition ret {A} (a : A) : M A := λ log, (inr a, log).
Definition raise {A} (e : exn) : M A := λ log, (inl e, log).
Definition bind {A B} (k : A → M B) (m : M A) : M B :=
  λ log, match m log with
         | (inr a, log') => k a log'
         | (inl e, log') => (inl e, log')
         end.
Definition tell (ev : event) : M unit := λ log, (inr (), (log ++ [ev])%list).
Definition run {A} (m : M A) : (exn + A) * list event := m [].

#[global] Instance M_ret : MRet M := @ret.
#[global] Instance M_bind : MBind M := @bind.

(** The call [find_best_match(entry_name, relevant_classifications)]. *)
Definition call_find_best_match (entry : pyval)
    (classifications : list ClassificationRow) : M (option BestMatch * Qc) :=
  tell (Call_find_best_match entry classifications) ;;
  mret (find_best_match entry classifications).

(** [best_match[key]]: a [TypeError] when [best_match] is [None]. *)
Definition getitem (best_match : option BestMatch) (key : BestMatch → pyval)
    : M pyval :=
  match best_match with
  | Some d => mret (key d)
  | None => raise TypeError
  end.

(** [classifications_df[classifications_df['Account Type'].str.lower()
    == account_type.lower()]] *)
Definition relevant_rows (classifications_df : list ClassificationRow)
    (account_type : string) : list ClassificationRow :=
  filter (λ r, lower (Account_Type r) = lower account_type) classifications_df.

Definition master_sheet (account_type : string) : string :=
  account_type ++ " Master Sheet".

(** The body of the loop over the entries. *)
Definition classify_entry (classifications_df : list ClassificationRow)
    (row : EntryRow) : M Classification :=
  let entry_name := Entry_Name row in
  let account_type := Entry_Account_Type row in
  let relevant_classifications := relevant_rows classifications_df account_type in
  match relevant_classifications with
  | [] =>
      mret {| entryName := entry_name;
             accountType := account_type;
             primaryClassification := PyStr "UNKNOWN";
             secondaryClassification := PyStr "UNKNOWN";
             tertiaryClassification := PyStr "UNKNOWN";
             confidence := 0%Qc;
             masterSheet := master_sheet account_type |}
  | _ :: _ =>
      '(best_match, confidence) ←
        call_find_best_match entry_name relevant_classifications ;
      primary ← getitem best_match bm_primaryClassification ;
      secondary ← getitem best_match bm_secondaryClassification ;
      tertiary ← getitem best_match bm_tertiaryClassification ;
      mret {| entryName := entry_name;
             accountType := account_type;
             primaryClassification := primary;
             secondaryClassification := secondary;
             tertiaryClassification := tertiary;
             confidence := confidence;
             masterSheet := master_sheet account_type |}
  end.

Fixpoint classify_loop (classifications_df : list ClassificationRow)
    (entries : list EntryRow) (results : list Classification)
    : M (list Classification) :=
  match entries with
  | [] => mret results
  | row :: entries' =>
      classification ← classify_entry classifications_df row ;
      classify_loop classifications_df entries' (results ++ [classification])%list
  end.

Definition classify_entries (entries_df : list EntryRow)
    (classifications_df : list ClassificationRow) : M (list Classification) :=
  classify_loop classifications_df entries_df [].

(** ** Lowercase, in the words of the contract *)

(** [str.isupper] on one code point below 256: the capitals A..Z and the
    Latin-1 capitals U+00C0..U+00D6 and U+00D8..U+00DE. *)
Definition isupper (c : ascii) : bool :=
  let n := N_of_ascii c in
  ((65 <=? n) && (n <=? 90) || (192 <=? n) && (n <=? 214)
   || (216 <=? n) && (n <=? 222))%N.

(** [d] is the lowercase of [c]: the small letter 32 code points above a
    capital, and the character itself when it is not a capital. *)
Definition lowercase_of (c d : ascii) : Prop :=
  (isupper c = true ∧ N_of_ascii d = (N_of_ascii c + 32)%N)
  ∨ (isupper c = false ∧ d = c).

(** A text with tabs, a line feed, runs of spaces and capitals. *)
Definition untidy_text : string :=
  String "009"%char
    (" Cash   IN" ++ String "010"%char (String "009"%char "BANK  ")).

(** ** Case-insensitive comparison, in the words of the contract *)

(** Two characters that differ at most by case. *)
Definition same_letter (c d : ascii) : Prop := lower_char c = lower_char d.

(** Two texts of the same length whose characters agree up to case. *)
Definition equal_ignoring_case (a b : string) : Prop :=
  Forall2 same_letter (list_ascii_of_string a) (list_ascii_of_string b).

#[global] Instance same_letter_dec : RelDecision same_letter.
Proof. intros c d. unfold same_letter. apply _. Defined.

#[global] Instance equal_ignoring_case_dec : RelDecision equal_ignoring_case.
Proof. intros a b. unfold equal_ignoring_case. apply _. Defined.

(** The entry name and the three labels of the row have no token in
    common. *)
Definition shares_no_token (entry : pyval) (row : ClassificationRow) : Prop :=
  token_set entry ∩ token_set (Primary_Classification row) = ∅
  ∧ token_set entry ∩ token_set (Secondary_Classification row) = ∅
  ∧ token_set entry ∩ token_set (Tertiary_Classification row) = ∅.

(** The three labels of a row, in the order the matcher reads them. *)
Definition labels (row : ClassificationRow) : list pyval :=
  [Primary_Classification row; Secondary_Classification row;
   Tertiary_Classification row].

(** The calls of the matcher that one entry causes: one call when the
    entry has candidate rows, none otherwise. *)
Definition calls_of (classifications_df : list ClassificationRow)
    (row : EntryRow) : list event :=
  match relevant_rows classifications_df (Entry_Account_Type row) with
  | [] => []
  | rows => [Call_find_best_match (Entry_Name row) rows]
  end.

(** ** Sample data *)

Module Sample.

Definition cash_row : ClassificationRow :=
  {| Account_Type := "Asset";
     Primary_Classification := PyStr "Cash";
     Secondary_Classification := PyStr "Bank Accounts";
     Tertiary_Classification := PyStr "Cash in Bank" |}.

Definition petty_row : ClassificationRow :=
  {| Account_Type := "Asset";
     Primary_Classification := PyStr "Cash";
     Secondary_Classification := PyStr "Petty Cash";
     Tertiary_Classification := PyStr "Cash on Hand" |}.

Definition receivable_row : ClassificationRow :=
  {| Account_Type := "Asset";
     Primary_Classification := PyStr "Receivables";
     Secondary_Classification := PyStr "Trade Receivables";
     Tertiary_Classification := PyStr "Accounts Receivable" |}.

Definition loan_row : ClassificationRow :=
  {| Account_Type := "Liability";
     Primary_Classification := PyStr "Loans";
     Secondary_Classification := PyStr "Bank Loans";
     Tertiary_Classification := PyNaN |}.

Definition tree : list ClassificationRow :=
  [cash_row; petty_row; receivable_row; loan_row].

Definition cash_entry : EntryRow :=
  {| Entry_Name := PyStr "Cash in Bank"; Entry_Account_Type := "Asset" |}.

Definition lowercase_entry : EntryRow :=
  {| Entry_Name := PyStr "Cash in Bank"; Entry_Account_Type := "asset" |}.

Definition widget_entry : EntryRow :=
  {| Entry_Name := PyStr "Widget Inventory"; Entry_Account_Type := "Asset" |}.

Definition equity_entry : EntryRow :=
  {| Entry_Name := PyStr "Retained Earnings"; Entry_Account_Type := "Equity" |}.

Definition receivable_entry : EntryRow :=
  {| Entry_Name := PyStr "Accounts Receivable";
     Entry_Account_Type := "ASSET" |}.

Definition batch : list EntryRow :=
  [cash_entry; equity_entry; receivable_entry].

End Sample.

(** * Properties *)

(** ** Characters *)

Lemma isspace_lower_char c : isspace (lower_char c) = isspace c.
Proof. by destruct c as [[] [] [] [] [] [] [] []]. Qed.

Lemma lower_char_idem c : lower_char (lower_char c) = lower_char c.
Proof. by destruct c as [[] [] [] [] [] [] [] []]. Qed.

Lemma isspace_space : isspace space = true.
Proof. reflexivity. Qed.

Lemma lower_char_space : lower_char space = space.
Proof. reflexivity. Qed.

(** ** Splitting and joining *)

Module CharsFacts.
Import Chars.
Local Open Scope list_scope.

Lemma split_ws c s : isspace c = true → split (c :: s) = split s.
Proof. intros H. simpl. by rewrite H. Qed.

Lemma split_last c s :
  isspace c = false → at_boundary s → split (c :: s) = [c] :: split s.
Proof.
  intros Hc Hs. destruct s as [|c' s']; simpl in *; rewrite Hc; [done|].
  by rewrite Hs.
Qed.

Lemma split_inner c c' s :
  isspace c = false → isspace c' = false →
  ∃ w ws, split (c' :: s) = w :: ws ∧ split (c :: c' :: s) = (c :: w) :: ws.
Proof.
  intros Hc Hc'.
  assert (∃ w ws, split (c' :: s) = w :: ws) as (w & ws & E).
  { simpl. rewrite Hc'. destruct s as [|c2 s2]; [by eauto|].
    destruct (isspace c2); [by eauto|].
    destruct (split (c2 :: s2)); by eauto. }
  exists w, ws. split; [done|].
  change (split (c :: c' :: s))
    with (if isspace c then split (c' :: s)
          else if isspace c' then [c] :: split (c' :: s)
               else match split (c' :: s) with
                    | w :: ws => (c :: w) :: ws
                    | [] => [[c]]
                    end).
  by rewrite Hc, Hc', E.
Qed.

#[local] Arguments split : simpl never.

Lemma split_app_token w s :
  token w → at_boundary s → split (w ++ s) = w :: split s.
Proof.
  intros [Hne Hw] Hs. induction w as [|c w IH]; [done|].
  inversion_clear Hw as [|?? Hc Hw'].
  destruct w as [|c' w'].
  - by apply split_last.
  - inversion Hw' as [|?? Hc' _]; subst.
    destruct (split_inner c c' (w' ++ s) Hc Hc') as (v & vs & E1 & E2).
    rewrite <-!app_comm_cons, E2.
    rewrite <-app_comm_cons in IH. rewrite IH in E1 by done.
    by inversion E1.
Qed.

Lemma split_tokens s : Forall token (split s).
Proof.
  induction s as [|c s IH]; [by constructor|].
  destruct (isspace c) eqn:Hc; [by rewrite split_ws|].
  destruct s as [|c' s'].
  - rewrite split_last by done. repeat constructor; [done|done].
  - destruct (isspace c') eqn:Hc'.
    + rewrite split_last by done. constructor; [|done].
      split; [done|]. by repeat constructor.
    + destruct (split_inner c c' s' Hc Hc') as (w & ws & E1 & E2).
      rewrite E2. rewrite E1 in IH. inversion_clear IH as [|?? [? ?] ?].
      constructor; [|done]. split; [done|]. by constructor.
Qed.

Lemma join_cons w ws :
  ws ≠ [] → join (w :: ws) = w ++ space :: join ws.
Proof. by destruct ws. Qed.

Lemma split_join ws : Forall token ws → split (join ws) = ws.
Proof.
  induction 1 as [|w ws Hw Hws IH]; [done|].
  destruct ws as [|w' ws'].
  - simpl. rewrite <-(app_nil_r w) at 1. by rewrite split_app_token.
  - rewrite join_cons by done.
    rewrite split_app_token by done.
    by rewrite split_ws, IH.
Qed.

Lemma split_lower s : split (lower s) = map lower (split s).
Proof.
  unfold lower. induction s as [|c s IH]; [done|].
  destruct (isspace c) eqn:Hc.
  - rewrite split_ws by done. simpl.
    rewrite split_ws; [done|]. by rewrite isspace_lower_char.
  - assert (isspace (lower_char c) = false) as Hlc
      by by rewrite isspace_lower_char.
    destruct s as [|c' s'].
    + simpl. by rewrite !split_last.
    + destruct (isspace c') eqn:Hc'.
      * rewrite split_last by done. simpl.
        rewrite split_last; [by rewrite <-IH|done|].
        simpl. by rewrite isspace_lower_char.
      * assert (isspace (lower_char c') = false) as Hlc'
          by by rewrite isspace_lower_char.
        destruct (split_inner c c' s' Hc Hc') as (w & ws & E1 & E2).
        destruct (split_inner (lower_char c) (lower_char c')
                    (map lower_char s') Hlc Hlc') as (v & vs & F1 & F2).
        rewrite E2. simpl. rewrite F2.
        simpl in IH. rewrite F1, E1 in IH. simpl in IH.
        by inversion IH.
Qed.

Lemma lower_join ws : lower (join ws) = join (map lower ws).
Proof.
  unfold lower. induction ws as [|w ws IH]; [done|].
  destruct ws as [|w' ws']; [done|].
  rewrite join_cons by done.
  rewrite map_app, map_cons, lower_char_space, IH. reflexivity.
Qed.

Lemma lower_idem s : lower (lower s) = lower s.
Proof.
  unfold lower. rewrite map_map. apply map_ext. apply lower_char_idem.
Qed.

(** *** Stripping and collapsing, in either order, is joining the tokens *)

Lemma split_lstrip s : split (lstrip s) = split s.
Proof.
  induction s as [|c s IH]; [done|]. simpl.
  destruct (isspace c) eqn:Hc; [by rewrite split_ws|done].
Qed.

Lemma lstrip_head s :
  match lstrip s with [] => True | c :: _ => isspace c = false end.
Proof.
  induction s as [|c s IH]; [done|]. simpl.
  by destruct (isspace c) eqn:Hc.
Qed.

Lemma rstrip_cons c s :
  isspace c = false → rstrip (c :: s) = c :: rstrip s.
Proof. intros Hc. simpl. rewrite Hc. by destruct (rstrip s). Qed.

Lemma rstrip_ws_nil c s :
  isspace c = true → rstrip s = [] → rstrip (c :: s) = [].
Proof. intros Hc Hs. simpl. by rewrite Hs, Hc. Qed.

Lemma rstrip_ws_cons c s :
  rstrip s ≠ [] → rstrip (c :: s) = c :: rstrip s.
Proof. intros Hs. simpl. by destruct (rstrip s). Qed.

Lemma lstrip_snoc s c :
  lstrip (s ++ [c])
  = match lstrip s with
    | [] => if isspace c then [] else [c]
    | r => r ++ [c]
    end.
Proof.
  induction s as [|d s IH]; simpl; [by destruct (isspace c)|].
  by destruct (isspace d).
Qed.

(** Stripping on the right is stripping the reversed text on the left. *)
Lemma rstrip_rev s : rstrip s = rev (lstrip (rev s)).
Proof.
  induction s as [|c s IH]; [done|].
  cbn [rev]. rewrite lstrip_snoc.
  destruct (lstrip (rev s)) as [|x r] eqn:Hl.
  - simpl in IH. cbn [rstrip]. rewrite IH. by destruct (isspace c).
  - rewrite rstrip_ws_cons, IH; [by rewrite rev_unit|].
    rewrite IH. cbn [rev]. by destruct (rev r).
Qed.

Lemma split_head c s :
  isspace c = false → ∃ w ws, split (c :: s) = (c :: w) :: ws.
Proof.
  intros Hc. destruct s as [|c' s'].
  - rewrite split_last by done. by eauto.
  - destruct (isspace c') eqn:Hc'.
    + rewrite split_last by done. by eauto.
    + destruct (split_inner c c' s' Hc Hc') as (w & ws & _ & E). by eauto.
Qed.

Lemma rstrip_nil_iff s : rstrip s = [] ↔ split s = [].
Proof.
  induction s as [|c s IH]; [done|].
  destruct (isspace c) eqn:Hc.
  - rewrite split_ws by done. rewrite <-IH. simpl. rewrite Hc.
    by destruct (rstrip s).
  - rewrite rstrip_cons by done.
    destruct (split_head c s Hc) as (w & ws & ->). done.
Qed.

Lemma join_nil_iff ws : Forall token ws → join ws = [] ↔ ws = [].
Proof.
  intros Hws. split; [|by intros ->].
  destruct Hws as [|w ws [Hne _] _]; [done|].
  destruct w; [done|]. by destruct ws.
Qed.

Lemma join_head c w ws : join ((c :: w) :: ws) = c :: join (w :: ws).
Proof. by destruct ws. Qed.

Lemma join_single_cons c ws :
  join ([c] :: ws) = c :: match ws with [] => [] | _ => space :: join ws end.
Proof. by destruct ws. Qed.

(** The tokens joined, when the text starts with a character that is not
    whitespace. *)
Lemma join_split_cons c s :
  isspace c = false →
  join (split (c :: s)) =
  c :: match s with
       | [] => []
       | c' :: _ =>
           if isspace c'
           then match split s with [] => [] | _ => space :: join (split s) end
           else join (split s)
       end.
Proof.
  intros Hc. destruct s as [|c' s'].
  - by rewrite split_last.
  - destruct (isspace c') eqn:Hc'.
    + rewrite split_last by done. apply join_single_cons.
    + destruct (split_inner c c' s' Hc Hc') as (w & ws & -> & ->).
      apply join_head.
Qed.

Lemma sub_ws_run_rstrip s : sub_ws_run true (rstrip s) = join (split s).
Proof.
  induction s as [|c s IH]; [done|].
  destruct (isspace c) eqn:Hc.
  - rewrite split_ws by done.
    destruct (rstrip s) as [|c2 r] eqn:Hr.
    + rewrite rstrip_ws_nil by done. by rewrite <-IH.
    + rewrite rstrip_ws_cons by congruence. rewrite Hr, <-IH.
      simpl. by rewrite Hc.
  - rewrite rstrip_cons, join_split_cons by done.
    cbn [sub_ws_run]. rewrite Hc. f_equal.
    destruct s as [|c' s']; [done|].
    destruct (isspace c') eqn:Hc'.
    + destruct (split (c' :: s')) as [|w ws] eqn:Hsp.
      * apply rstrip_nil_iff in Hsp. by rewrite Hsp.
      * assert (rstrip (c' :: s') ≠ []) as Hne.
        { rewrite rstrip_nil_iff. congruence. }
        rewrite <-IH. rewrite rstrip_ws_cons in Hne |- *; first last.
        { intros Hs'. apply Hne. by apply rstrip_ws_nil. }
        { intros Hs'. apply Hne. by apply rstrip_ws_nil. }
        cbn [sub_ws_run]. by rewrite Hc'.
    + rewrite <-IH. rewrite rstrip_cons by done.
      cbn [sub_ws_run]. by rewrite Hc'.
Qed.

Lemma sub_ws_strip s : sub_ws (strip s) = join (split s).
Proof.
  unfold sub_ws, strip. rewrite <-split_lstrip, <-sub_ws_run_rstrip.
  pose proof (lstrip_head s) as Hh.
  destruct (lstrip s) as [|c t]; [done|].
  rewrite rstrip_cons by done. cbn [sub_ws_run]. by rewrite Hh.
Qed.

Lemma sub_ws_run_head b s :
  match sub_ws_run b s with
  | [] => True
  | c :: _ => b = true → isspace c = false
  end.
Proof.
  revert b. induction s as [|c s IH]; intros b; [done|]. simpl.
  destruct (isspace c) eqn:Hc; [|done].
  destruct b; [apply (IH true)|done].
Qed.

Lemma lstrip_sub_ws_run s : lstrip (sub_ws_run false s) = sub_ws_run true s.
Proof.
  destruct s as [|c s]; [done|]. simpl.
  destruct (isspace c) eqn:Hc; simpl; [|by rewrite Hc].
  pose proof (sub_ws_run_head true s) as Hh.
  destruct (sub_ws_run true s) as [|c' t]; [done|].
  simpl. by rewrite Hh.
Qed.

Lemma rstrip_sub_ws_run s : rstrip (sub_ws_run true s) = join (split s).
Proof.
  induction s as [|c s IH]; [done|].
  destruct (isspace c) eqn:Hc.
  - rewrite split_ws by done. cbn [sub_ws_run]. by rewrite Hc.
  - rewrite join_split_cons by done.
    cbn [sub_ws_run]. rewrite Hc, rstrip_cons by done. f_equal.
    destruct s as [|c' s']; [done|].
    cbn [sub_ws_run] in IH |- *.
    destruct (isspace c') eqn:Hc'; [|done].
    pose proof (join_nil_iff (split (c' :: s')) (split_tokens _)) as Hj.
    rewrite <-IH in Hj.
    destruct (split (c' :: s')) as [|w ws] eqn:Hsp.
    + apply rstrip_ws_nil; [done|]. by apply Hj.
    + rewrite rstrip_ws_cons; [by rewrite IH|].
      intros Hr. by apply Hj in Hr.
Qed.

Lemma strip_sub_ws s : strip (sub_ws s) = join (split s).
Proof.
  unfold strip, sub_ws. by rewrite lstrip_sub_ws_run, rstrip_sub_ws_run.
Qed.

End CharsFacts.

(** ** normalize_text *)

Lemma on_chars_compose f g s : on_chars f (on_chars g s) = on_chars (f ∘ g) s.
Proof.
  unfold on_chars. by rewrite list_ascii_of_string_of_list_ascii.
Qed.

(** The normalizer joins the tokens of the lowercased text. *)
Lemma normalize_text_chars s :
  normalize_text (PyStr s)
  = string_of_list_ascii
      (Chars.join (Chars.split (Chars.lower (list_ascii_of_string s)))).
Proof.
  unfold normalize_text, re_sub_ws, strip, lower.
  rewrite !on_chars_compose. unfold on_chars, compose.
  by rewrite CharsFacts.sub_ws_strip.
Qed.

Lemma normalize_text_join_split s :
  normalize_text (PyStr s) = join_space (split (lower s)).
Proof.
  rewrite normalize_text_chars. unfold join_space, split, lower, on_chars.
  rewrite list_ascii_of_string_of_list_ascii, map_map.
  f_equal. f_equal. rewrite <-(map_id (Chars.split _)) at 1.
  apply map_ext. intros w. by rewrite list_ascii_of_string_of_list_ascii.
Qed.

Lemma spec_normalize_chars s :
  spec_normalize (PyStr s)
  = string_of_list_ascii
      (Chars.join (Chars.split (Chars.lower (list_ascii_of_string s)))).
Proof.
  unfold spec_normalize, re_sub_ws, strip, lower.
  rewrite !on_chars_compose. unfold on_chars, compose.
  by rewrite CharsFacts.strip_sub_ws.
Qed.

Lemma normalize_text_not_str v :
  isinstance_str v = false → normalize_text v = EmptyString.
Proof. by destruct v. Qed.

Lemma split_normalize_text s :
  split (normalize_text (PyStr s))
  = map string_of_list_ascii
      (Chars.split (Chars.lower (list_ascii_of_string s))).
Proof.
  rewrite normalize_text_chars. unfold split.
  rewrite list_ascii_of_string_of_list_ascii.
  by rewrite CharsFacts.split_join by apply CharsFacts.split_tokens.
Qed.

Lemma normalize_text_idem v :
  normalize_text (PyStr (normalize_text v)) = normalize_text v.
Proof.
  destruct v as [s| | |]; try reflexivity.
  rewrite (normalize_text_chars (normalize_text _)), (normalize_text_chars s).
  rewrite list_ascii_of_string_of_list_ascii.
  rewrite CharsFacts.lower_join, <-CharsFacts.split_lower.
  rewrite CharsFacts.lower_idem.
  by rewrite CharsFacts.split_join by apply CharsFacts.split_tokens.
Qed.

Lemma lowercase_of_lower_char c : lowercase_of c (lower_char c).
Proof.
  destruct c as [[] [] [] [] [] [] [] []];
    first [by left|by right].
Qed.

Lemma isupper_lower_char c : isupper (lower_char c) = false.
Proof. by destruct c as [[] [] [] [] [] [] [] []]. Qed.

(** The characters of the normalization: those of the tokens of the text
    joined by single spaces, each one lowercased. *)
Lemma normalize_text_map_lower s :
  list_ascii_of_string (normalize_text (PyStr s))
  = map lower_char
      (Chars.join (Chars.split (list_ascii_of_string s))).
Proof.
  rewrite normalize_text_chars, list_ascii_of_string_of_list_ascii.
  by rewrite CharsFacts.split_lower, <-CharsFacts.lower_join.
Qed.

Lemma normalize_text_lowercase_of s :
  Forall2 lowercase_of
    (Chars.join (Chars.split (list_ascii_of_string s)))
    (list_ascii_of_string (normalize_text (PyStr s))).
Proof.
  rewrite normalize_text_map_lower.
  induction (Chars.join _) as [|c l IH]; constructor; [|done].
  apply lowercase_of_lower_char.
Qed.

Lemma normalize_text_no_capital v :
  Forall (λ c, isupper c = false) (list_ascii_of_string (normalize_text v)).
Proof.
  destruct v as [s| | |]; try by constructor.
  rewrite normalize_text_map_lower.
  induction (Chars.join _) as [|c l IH]; constructor; [|done].
  apply isupper_lower_char.
Qed.

(** C9. [normalize_text] is a total function that returns the empty string
    on every value that is not a [str] and on the empty [str], and on any
    other [str] returns it lowercased, every run of whitespace collapsed to
    one space and both ends stripped ([spec_normalize], which applies the
    three steps in the order of the contract); the result is the tokens of
    the lowercased text joined by single spaces. Character by character
    the result is the lowercase ([lowercase_of]: a capital becomes its small
    letter, any other character stays) of the tokens of the text joined by
    single spaces, and it holds no capital; so a text with tabs, a line
    feed, runs of spaces and capitals becomes ["cash in bank"]. *)
Theorem normalize_text_contract :
  (∀ v, isinstance_str v = false → normalize_text v = EmptyString)
  ∧ normalize_text (PyStr EmptyString) = EmptyString
  ∧ (∀ v, normalize_text v = spec_normalize v)
  ∧ (∀ s, normalize_text (PyStr s) = join_space (split (lower s)))
  ∧ (∀ s, Forall2 lowercase_of
            (Chars.join (Chars.split (list_ascii_of_string s)))
            (list_ascii_of_string (normalize_text (PyStr s))))
  ∧ (∀ v, Forall (λ c, isupper c = false)
            (list_ascii_of_string (normalize_text v)))
  ∧ normalize_text (PyStr untidy_text) = "cash in bank".
Proof.
  split; [apply normalize_text_not_str|].
  split; [reflexivity|].
  split.
  { intros [s| | |]; try reflexivity.
    by rewrite normalize_text_chars, spec_normalize_chars. }
  split; [apply normalize_text_join_split|].
  split; [apply normalize_text_lowercase_of|].
  split; [apply normalize_text_no_capital|].
  reflexivity.
Qed.

(** ** calculate_similarity *)

Lemma round_half_even_bounds (a b k : Z) :
  (0 < b)%Z → (0 ≤ a ≤ b * k)%Z → (0 ≤ round_half_even a b ≤ k)%Z.
Proof.
  intros Hb [Ha Hk]. unfold round_half_even.
  pose proof (Z.div_mod a b ltac:(lia)) as Hdm.
  pose proof (Z.mod_pos_bound a b Hb) as Hr.
  assert (0 ≤ a / b)%Z as Hq by (apply Z.div_pos; lia).
  assert (a / b ≤ k)%Z as Hqk.
  { apply Z.div_le_upper_bound; lia. }
  assert (a / b = k → a mod b = 0)%Z as Htop by nia.
  repeat case_match; lia.
Qed.

Lemma round_half_even_exact (b k : Z) :
  (0 < b)%Z → round_half_even (b * k) b = k.
Proof.
  intros Hb. unfold round_half_even.
  rewrite (Z.mul_comm b k), Z.div_mul, Z.mod_mul by lia.
  by rewrite (proj2 (Z.ltb_lt _ _)) by lia.
Qed.

Lemma Q2Qc_unit_interval (x k : Z) :
  (0 < k)%Z → (0 ≤ x ≤ k)%Z → (0 ≤ Q2Qc (x # Z.to_pos k) ≤ 1)%Qc.
Proof.
  intros Hk Hx. unfold Qcle. simpl. rewrite !Qred_correct.
  unfold Qle. simpl. rewrite Z2Pos.id by done. lia.
Qed.

Lemma int_true_div_0 (m : Z) : int_true_div 0 m = 0%Qc.
Proof. reflexivity. Qed.

Lemma int_true_div_bounds (n m : Z) :
  (0 ≤ n ≤ m)%Z → (0 < m)%Z → (0 ≤ int_true_div n m ≤ 1)%Qc.
Proof.
  intros Hnm Hm. unfold int_true_div.
  destruct (Z.eqb_spec n 0) as [->|Hn]; [done|].
  assert (0 ≤ Z.log2 m - Z.log2 n)%Z as Ht0.
  { pose proof (Z.log2_le_mono n m). lia. }
  cbv zeta.
  set (t := if (_ <=? _)%Z then _ else _).
  assert (0 ≤ t)%Z as Ht by (subst t; case_match; lia).
  rewrite (Z.max_r 0 (52 + t)), (Z.max_l 0 (- (52 + t))) by lia.
  rewrite Z.pow_0_r, !Z.mul_1_r.
  assert (0 < 2 ^ (52 + t))%Z as Hpow by (apply Z.pow_pos_nonneg; lia).
  apply Q2Qc_unit_interval; [done|].
  apply round_half_even_bounds; [done|]. nia.
Qed.

Lemma int_true_div_diag (n : Z) : (0 < n)%Z → int_true_div n n = 1%Qc.
Proof.
  intros Hn. unfold int_true_div.
  rewrite (proj2 (Z.eqb_neq n 0)) by lia.
  cbv zeta. rewrite Z.sub_diag. simpl (Z.max 0 (- 0)). simpl (Z.max 0 0).
  rewrite Z.pow_0_r, Z.leb_refl.
  change (52 + 0)%Z with 52%Z.
  change (Z.max 0 52) with 52%Z. change (Z.max 0 (- 52)) with 0%Z.
  rewrite Z.pow_0_r, !Z.mul_1_r, round_half_even_exact by done.
  apply Qc_is_canon. simpl. rewrite Qred_correct. reflexivity.
Qed.

Lemma round_half_even_nearest (a b : Z) :
  (0 < b)%Z → (2 * Z.abs (a - round_half_even a b * b) ≤ b)%Z.
Proof.
  intros Hb. unfold round_half_even.
  pose proof (Z.div_mod a b ltac:(lia)) as Hdm.
  pose proof (Z.mod_pos_bound a b Hb) as Hr.
  repeat case_match; nia.
Qed.

Lemma round_half_even_mono (a a' b : Z) :
  (0 < b)%Z → (a ≤ a')%Z → (round_half_even a b ≤ round_half_even a' b)%Z.
Proof.
  intros Hb Ha.
  destruct (Z.eq_dec (a / b)%Z (a' / b)%Z) as [Heq|Hne].
  - unfold round_half_even. rewrite <-Heq.
    pose proof (Z.div_mod a b ltac:(lia)) as Hdm.
    pose proof (Z.div_mod a' b ltac:(lia)) as Hdm'.
    assert (a mod b ≤ a' mod b)%Z by nia.
    repeat case_match; lia.
  - assert (a / b ≤ a' / b)%Z by (apply Z.div_le_mono; lia).
    unfold round_half_even. repeat case_match; lia.
Qed.

(** For [0 < n <= m] the result is a number of 53 significant bits nearest
    to the quotient. *)
Lemma int_true_div_nearest (n m : Z) :
  (0 < n ≤ m)%Z →
  ∃ mant s : Z,
    (0 ≤ s)%Z
    ∧ int_true_div n m = Q2Qc (mant # Z.to_pos (2 ^ s))
    ∧ (2 ^ 52 ≤ mant ≤ 2 ^ 53)%Z
    ∧ (2 * Z.abs (n * 2 ^ s - mant * m) ≤ m)%Z.
Proof.
  intros [Hn Hnm]. unfold int_true_div.
  rewrite (proj2 (Z.eqb_neq n 0)) by lia. cbv zeta.
  pose proof (Z.log2_spec n Hn) as [Hln1 Hln2].
  pose proof (Z.log2_spec m ltac:(lia)) as [Hlm1 Hlm2].
  pose proof (Z.log2_nonneg n) as Hln0.
  assert (Z.log2 n ≤ Z.log2 m)%Z as Hll by (apply Z.log2_le_mono; lia).
  set (t0 := (Z.log2 m - Z.log2 n)%Z) in *.
  assert (2 ^ Z.log2 m = 2 ^ Z.log2 n * 2 ^ t0)%Z as Hsplit.
  { rewrite <-Z.pow_add_r by lia. f_equal. lia. }
  rewrite (Z.max_l 0 (- t0)), (Z.max_r 0 t0) by lia.
  rewrite Z.pow_0_r, Z.mul_1_r.
  assert (0 < 2 ^ t0)%Z as Hp0 by (apply Z.pow_pos_nonneg; lia).
  rewrite !Z.pow_succ_r in * by lia.
  set (t := if (_ <=? _)%Z then _ else _).
  assert (0 ≤ t ∧ m ≤ n * 2 ^ t < 2 * m)%Z as (Ht & Hlo & Hhi).
  { assert (2 ^ Z.log2 n * 2 ^ t0 ≤ n * 2 ^ t0)%Z as Hlow
      by (apply Z.mul_le_mono_nonneg_r; lia).
    assert (n * 2 ^ t0 < 2 * 2 ^ Z.log2 n * 2 ^ t0)%Z as Hupp
      by (apply Z.mul_lt_mono_pos_r; lia).
    assert (0 ≤ t0)%Z as Ht0 by lia. clearbody t0.
    subst t. destruct (Z.leb_spec m (n * 2 ^ t0)) as [Hc|Hc].
    - split; [lia|]. split; [done|].
      remember (2 ^ t0)%Z as B. remember (2 ^ Z.log2 n)%Z as A.
      remember (2 ^ Z.log2 m)%Z as P. lia.
    - rewrite Z.pow_add_r, Z.pow_1_r by lia. split; [lia|].
      remember (2 ^ t0)%Z as B. remember (2 ^ Z.log2 n)%Z as A.
      remember (2 ^ Z.log2 m)%Z as P. lia. }
  clearbody t. exists (round_half_even (n * 2 ^ (52 + t)) m), (52 + t)%Z.
  rewrite (Z.max_r 0 (52 + t)), (Z.max_l 0 (- (52 + t))) by lia.
  rewrite Z.pow_0_r, !Z.mul_1_r.
  split; [lia|]. split; [done|].
  split; [|by apply round_half_even_nearest; lia].
  rewrite Z.pow_add_r by lia.
  assert (0 < 2 ^ 52)%Z as H52 by done.
  change (2 ^ 53)%Z with (2 * 2 ^ 52)%Z.
  generalize dependent (2 ^ 52)%Z. intros k Hk.
  generalize dependent (2 ^ t)%Z. intros p Hlo Hhi.
  assert (m * k ≤ n * p * k)%Z by (apply Z.mul_le_mono_nonneg_r; lia).
  assert (n * p * k ≤ 2 * m * k)%Z by (apply Z.mul_le_mono_nonneg_r; lia).
  split.
  - rewrite <-(round_half_even_exact m k) at 1 by lia.
    apply round_half_even_mono; lia.
  - rewrite <-(round_half_even_exact m (2 * k)) by lia.
    apply round_half_even_mono; lia.
Qed.

(** C7. The similarity is symmetric: for all texts [a] and [b],
    [calculate_similarity a b] equals [calculate_similarity b a]. *)
Theorem calculate_similarity_sym (a b : pyval) :
  calculate_similarity a b = calculate_similarity b a.
Proof.
  unfold calculate_similarity; cbv zeta.
  assert (token_set a ∩ token_set b = token_set b ∩ token_set a) as ->
    by apply intersection_comm_L.
  assert (token_set a ∪ token_set b = token_set b ∪ token_set a) as ->
    by apply union_comm_L.
  by rewrite orb_comm.
Qed.

Lemma calculate_similarity_bounds (a b : pyval) :
  (0 ≤ calculate_similarity a b ≤ 1)%Qc.
Proof.
  unfold calculate_similarity; cbv zeta.
  destruct (_ || _); [done|].
  case_bool_decide as Hu; [|done].
  apply int_true_div_bounds; [|done].
  split; [lia|]. apply inj_le, subseteq_size.
  apply union_subseteq_l', intersection_subseteq_l.
Qed.

Lemma calculate_similarity_disjoint (a b : pyval) :
  token_set a ∩ token_set b = ∅ → calculate_similarity a b = 0%Qc.
Proof.
  intros Hd. unfold calculate_similarity; cbv zeta.
  destruct (_ || _); [done|].
  case_bool_decide; [|done].
  rewrite Hd, size_empty. apply int_true_div_0.
Qed.

Lemma token_set_nonempty v :
  normalize_text v ≠ EmptyString → token_set v ≠ ∅.
Proof.
  destruct v as [s| | |]; try done.
  unfold token_set. rewrite split_normalize_text, normalize_text_chars.
  destruct (Chars.split _) as [|w ws]; [done|].
  intros _. simpl. apply (non_empty_inhabited_L (string_of_list_ascii w)).
  apply elem_of_union_l, elem_of_singleton. reflexivity.
Qed.

Lemma calculate_similarity_self (a : pyval) :
  token_set a ≠ ∅ → calculate_similarity a a = 1%Qc.
Proof.
  intros Hne. unfold calculate_similarity; cbv zeta.
  rewrite bool_decide_eq_false_2 by done. simpl.
  assert (token_set a ∩ token_set a = token_set a) as ->
    by apply intersection_idemp_L.
  assert (token_set a ∪ token_set a = token_set a) as ->
    by apply union_idemp_L.
  assert (0 < Z.of_nat (size (token_set a)))%Z as Hpos.
  { apply (inj_lt 0), Nat.neq_0_lt_0, size_non_empty_iff.
    by intros ?%leibniz_equiv. }
  rewrite bool_decide_eq_true_2 by done.
  by apply int_true_div_diag.
Qed.

(** ** find_best_match *)

Lemma py_max_bounds (a b : Qc) :
  (0 ≤ a ≤ 1)%Qc → (0 ≤ b ≤ 1)%Qc → (0 ≤ py_max a b ≤ 1)%Qc.
Proof. intros Ha Hb. unfold py_max. by case_bool_decide. Qed.

Lemma py_max3_zero : py_max3 0 0 0 = 0%Qc.
Proof. reflexivity. Qed.

Lemma row_similarity_bounds entry row :
  (0 ≤ row_similarity entry row ≤ 1)%Qc.
Proof.
  unfold row_similarity, py_max3.
  repeat apply py_max_bounds; apply calculate_similarity_bounds.
Qed.

#[local] Arguments best_match_step : simpl never.
#[local] Arguments row_similarity : simpl never.

(** A row whose score does not exceed the running maximum changes
    nothing. *)
Lemma best_match_step_keep entry best_match max_similarity row :
  (row_similarity entry row ≤ max_similarity)%Qc →
  best_match_step entry (best_match, max_similarity) row
  = (best_match, max_similarity).
Proof.
  intros Hle. unfold best_match_step.
  rewrite bool_decide_eq_false_2; [done|]. by apply Qcle_not_lt.
Qed.

Lemma best_match_step_take entry best_match max_similarity row :
  (max_similarity < row_similarity entry row)%Qc →
  best_match_step entry (best_match, max_similarity) row
  = (Some (match_of_row row), row_similarity entry row).
Proof.
  intros Hlt. unfold best_match_step. by rewrite bool_decide_eq_true_2.
Qed.

Lemma best_match_fold_keep entry rows best_match max_similarity :
  (∀ x, x ∈ rows → (row_similarity entry x ≤ max_similarity)%Qc) →
  fold_left (best_match_step entry) rows (best_match, max_similarity)
  = (best_match, max_similarity).
Proof.
  induction rows as [|row rows IH]; intros Hle; [done|].
  simpl. rewrite best_match_step_keep by (apply Hle; left).
  apply IH. intros x Hx. apply Hle. by right.
Qed.



Lemma best_match_fold_bounds entry rows best_match max_similarity :
  (0 ≤ max_similarity ≤ 1)%Qc →
  (0 ≤ snd (fold_left (best_match_step entry) rows
              (best_match, max_similarity)) ≤ 1)%Qc.
Proof.
  revert best_match max_similarity.
  induction rows as [|row rows IH]; intros bm m Hm; [done|].
  simpl. destruct (Qclt_le_dec m (row_similarity entry row)) as [Hgt|Hle].
  - rewrite best_match_step_take by done. apply IH, row_similarity_bounds.
  - rewrite best_match_step_keep by done. by apply IH.
Qed.

(** A best match comes with a positive score. *)
Lemma best_match_fold_some entry rows best_match max_similarity :
  (0 ≤ max_similarity)%Qc → (best_match = None ∨ 0 < max_similarity)%Qc →
  let st := fold_left (best_match_step entry) rows
              (best_match, max_similarity) in
  (fst st = None ∨ 0 < snd st)%Qc.
Proof.
  revert best_match max_similarity.
  induction rows as [|row rows IH]; intros bm m H0 Hm; [done|].
  simpl. destruct (Qclt_le_dec m (row_similarity entry row)) as [Hgt|Hle].
  - rewrite best_match_step_take by done.
    assert (0 < row_similarity entry row)%Qc
      by by apply Qcle_lt_trans with m.
    apply IH; [by apply Qclt_le_weak|by right].
  - rewrite best_match_step_keep by done. by apply IH.
Qed.

(** ** classify_entries *)

(** What one turn of the loop over the entries returns and logs. *)
Lemma classify_entry_run cls e :
  run (classify_entry cls e)
  = match relevant_rows cls (Entry_Account_Type e) with
    | [] =>
        (inr {| entryName := Entry_Name e;
                accountType := Entry_Account_Type e;
                primaryClassification := PyStr "UNKNOWN";
                secondaryClassification := PyStr "UNKNOWN";
                tertiaryClassification := PyStr "UNKNOWN";
                confidence := 0%Qc;
                masterSheet := master_sheet (Entry_Account_Type e) |}, [])
    | rows =>
        let call := Call_find_best_match (Entry_Name e) rows in
        match find_best_match (Entry_Name e) rows with
        | (Some d, score) =>
            (inr {| entryName := Entry_Name e;
                    accountType := Entry_Account_Type e;
                    primaryClassification := bm_primaryClassification d;
                    secondaryClassification := bm_secondaryClassification d;
                    tertiaryClassification := bm_tertiaryClassification d;
                    confidence := score;
                    masterSheet := master_sheet (Entry_Account_Type e) |},
             [call])
        | (None, _) => (inl TypeError, [call])
        end
    end.
Proof.
  unfold run, classify_entry.
  destruct (relevant_rows _ _) as [|r rows]; [done|].
  unfold call_find_best_match, mbind, M_bind, bind, tell, mret, M_ret, ret.
  simpl. by destruct (find_best_match _ _) as [[d|] score].
Qed.

(** The loop body only appends to the log. *)
Lemma classify_entry_log cls e log :
  classify_entry cls e log
  = (fst (run (classify_entry cls e)),
     (log ++ snd (run (classify_entry cls e)))%list).
Proof.
  unfold run, classify_entry.
  destruct (relevant_rows _ _) as [|r rows].
  - unfold mret, M_ret, ret. simpl. by rewrite app_nil_r.
  - unfold call_find_best_match, mbind, M_bind, bind, tell, mret, M_ret, ret.
    simpl. by destruct (find_best_match _ _) as [[d|] score].
Qed.

(** When the batch returns, every result is the one of its entry. *)
Lemma classify_loop_results cls es acc log rs log' :
  classify_loop cls es acc log = (inr rs, log') →
  ∃ rs', rs = (acc ++ rs')%list
         ∧ Forall2 (λ e r, fst (run (classify_entry cls e)) = inr r) es rs'.
Proof.
  revert acc log. induction es as [|e es IH]; intros acc log Hrun.
  - inversion Hrun; subst. exists []. by rewrite app_nil_r.
  - cbn [classify_loop] in Hrun. unfold mbind, M_bind, bind in Hrun.
    rewrite classify_entry_log in Hrun.
    destruct (fst (run (classify_entry cls e))) as [ex|r] eqn:Hr; [done|].
    apply IH in Hrun as (rs' & -> & Hall).
    exists (r :: rs'). rewrite <-app_assoc. split; [done|].
    by constructor.
Qed.

Lemma classify_entries_results es cls rs log :
  run (classify_entries es cls) = (inr rs, log) →
  Forall2 (λ e r, fst (run (classify_entry cls e)) = inr r) es rs.
Proof.
  intros Hrun. apply classify_loop_results in Hrun as (rs' & -> & Hall).
  done.
Qed.

Lemma find_best_match_bounds entry rows :
  (0 ≤ snd (find_best_match entry rows) ≤ 1)%Qc.
Proof. unfold find_best_match. apply best_match_fold_bounds. by split. Qed.

Lemma classify_entry_confidence cls e r :
  fst (run (classify_entry cls e)) = inr r → (0 ≤ confidence r ≤ 1)%Qc.
Proof.
  rewrite classify_entry_run.
  destruct (relevant_rows _ _) as [|row rows].
  - intros [= <-]. done.
  - pose proof (find_best_match_bounds (Entry_Name e) (row :: rows)) as Hb.
    cbv zeta. destruct (find_best_match _ _) as [[d|] score]; [|done].
    by intros [= <-].
Qed.

Lemma equal_ignoring_case_lower a b :
  equal_ignoring_case a b ↔ lower a = lower b.
Proof.
  unfold equal_ignoring_case, lower, on_chars, Chars.lower.
  generalize (list_ascii_of_string a) (list_ascii_of_string b).
  intros l k. split.
  - intros H. f_equal. induction H as [|c d l k Hcd _ IH]; [done|].
    simpl. by rewrite Hcd, IH.
  - intros H.
    apply (f_equal list_ascii_of_string) in H.
    rewrite !list_ascii_of_string_of_list_ascii in H.
    revert k H. induction l as [|c l IH]; intros [|d k] H; simpl in H;
      try discriminate; constructor.
    + by injection H.
    + apply IH. by injection H.
Qed.

Lemma relevant_rows_nil cls account_type :
  relevant_rows cls account_type = []
  ↔ ∀ r, r ∈ cls → ¬ equal_ignoring_case (Account_Type r) account_type.
Proof.
  unfold relevant_rows. split.
  - intros Hnil r Hr He. apply equal_ignoring_case_lower in He.
    by apply (filter_nil_not_elem_of _ _ r Hnil He).
  - intros Hnone. induction cls as [|r cls IH]; [done|].
    rewrite filter_cons_False.
    + apply IH. intros x Hx. apply Hnone. by right.
    + rewrite <-equal_ignoring_case_lower. apply Hnone. left.
Qed.

(** C5. An entry whose account type matches no row of the classification
    table under case-insensitive comparison (an empty table included) gets
    the result with the three classification fields ["UNKNOWN"] and
    confidence 0, and the log of calls to the matcher stays empty. *)
Theorem missing_classification_unknown cls e :
  (∀ r, r ∈ cls →
        ¬ equal_ignoring_case (Account_Type r) (Entry_Account_Type e)) →
  run (classify_entry cls e)
  = (inr {| entryName := Entry_Name e;
            accountType := Entry_Account_Type e;
            primaryClassification := PyStr "UNKNOWN";
            secondaryClassification := PyStr "UNKNOWN";
            tertiaryClassification := PyStr "UNKNOWN";
            confidence := 0%Qc;
            masterSheet := master_sheet (Entry_Account_Type e) |}, []).
Proof.
  intros Hnone. apply relevant_rows_nil in Hnone.
  by rewrite classify_entry_run, Hnone.
Qed.

Lemma missing_classification_unknown_witness :
  (∀ r, r ∈ Sample.tree →
        ¬ equal_ignoring_case (Account_Type r)
            (Entry_Account_Type Sample.equity_entry))
  ∧ run (classify_entry Sample.tree Sample.equity_entry)
    = (inr {| entryName := PyStr "Retained Earnings";
              accountType := "Equity";
              primaryClassification := PyStr "UNKNOWN";
              secondaryClassification := PyStr "UNKNOWN";
              tertiaryClassification := PyStr "UNKNOWN";
              confidence := 0%Qc;
              masterSheet := "Equity Master Sheet" |}, []).
Proof.
  assert (∀ r, r ∈ Sample.tree →
               ¬ equal_ignoring_case (Account_Type r)
                   (Entry_Account_Type Sample.equity_entry)) as Hnone.
  { apply Forall_forall. apply (bool_decide_unpack _). by vm_compute. }
  split; [exact Hnone|].
  exact (missing_classification_unknown Sample.tree Sample.equity_entry Hnone).
Defined.


(** C8. The similarity of any two texts lies between 0 and 1, and so does
    the confidence of every result that [classify_entries] returns. *)
Theorem similarity_and_confidence_bounds :
  (∀ a b, (0 ≤ calculate_similarity a b ≤ 1)%Qc)
  ∧ (∀ es cls rs log,
       run (classify_entries es cls) = (inr rs, log) →
       Forall (λ r, (0 ≤ confidence r ≤ 1)%Qc) rs).
Proof.
  split; [apply calculate_similarity_bounds|].
  intros es cls rs log Hrun. apply classify_entries_results in Hrun.
  induction Hrun as [|e r es rs Hr _ IH]; constructor; [|done].
  by apply (classify_entry_confidence cls e).
Qed.

Lemma similarity_and_confidence_bounds_witness :
  let out :=
    run (classify_entries [Sample.cash_entry; Sample.equity_entry]
           Sample.tree) in
  match fst out with
  | inr rs =>
      map primaryClassification rs = [PyStr "Cash"; PyStr "UNKNOWN"]
      ∧ Forall (λ r, (0 ≤ confidence r ≤ 1)%Qc) rs
  | inl _ => False
  end.
Proof.
  intros out.
  destruct out as [[ex|rs] log] eqn:Hout; simpl.
  - vm_compute in Hout. discriminate Hout.
  - split.
    + vm_compute in Hout. injection Hout as <- _. reflexivity.
    + exact (proj2 similarity_and_confidence_bounds _ _ rs log Hout).
Defined.

(** C4, as the code has it. A text with at least one token, that is, whose
    normalization is not empty, has similarity 1 with itself. *)
Theorem self_similarity_is_one (a : pyval) :
  normalize_text a ≠ EmptyString → calculate_similarity a a = 1%Qc.
Proof. intros Hne. by apply calculate_similarity_self, token_set_nonempty. Qed.

Lemma self_similarity_is_one_witness :
  normalize_text (PyStr "Cash in Bank") ≠ EmptyString
  ∧ calculate_similarity (PyStr "Cash in Bank") (PyStr "Cash in Bank") = 1%Qc.
Proof.
  split; [by vm_compute|].
  apply (self_similarity_is_one (PyStr "Cash in Bank")). by vm_compute.
Defined.

(** C4, as stated, fails on a text made of whitespace only: it is not
    empty, and its similarity with itself is 0. *)
Lemma whitespace_self_similarity_counterexample :
  ¬ (∀ s : string,
       s ≠ EmptyString → calculate_similarity (PyStr s) (PyStr s) = 1%Qc).
Proof.
  intros H. specialize (H " " ltac:(done)).
  apply (f_equal (λ q : Qc, Qnum q)) in H. vm_compute in H. discriminate H.
Qed.

(** ** The matcher normalizes once *)

Lemma token_set_normalize_text v :
  token_set (PyStr (normalize_text v)) = token_set v.
Proof. unfold token_set. by rewrite normalize_text_idem. Qed.

Lemma calculate_similarity_normalize_text v label :
  calculate_similarity (PyStr (normalize_text v)) label
  = calculate_similarity v label.
Proof.
  unfold calculate_similarity. by rewrite token_set_normalize_text.
Qed.

Lemma row_similarity_normalize_text entry row :
  row_similarity (normalize_text entry) row = row_similarity_raw entry row.
Proof.
  unfold row_similarity, row_similarity_raw.
  by rewrite !calculate_similarity_normalize_text.
Qed.

(** C10. [normalize_text] is idempotent, so the matcher, which normalizes
    the entry name once and hands the normalized text to comparisons that
    normalize again, gives every row the score it would get from the raw
    entry name, and returns the same best match. *)
Theorem normalize_text_idempotent :
  (∀ v, normalize_text (PyStr (normalize_text v)) = normalize_text v)
  ∧ (∀ entry row,
       row_similarity (normalize_text entry) row
       = row_similarity_raw entry row)
  ∧ (∀ entry rows,
       find_best_match entry rows = find_best_match_raw entry rows).
Proof.
  split; [apply normalize_text_idem|].
  split; [apply row_similarity_normalize_text|].
  intros entry rows. unfold find_best_match, find_best_match_raw.
  generalize (@None BestMatch, 0%Qc).
  induction rows as [|row rows IH]; intros st; [done|].
  simpl. rewrite <-IH. f_equal.
  destruct st as [bm m]. unfold best_match_step, best_match_step_raw.
  by rewrite row_similarity_normalize_text.
Qed.

(** ** Ties, and candidates without overlap *)




Lemma row_similarity_no_token entry row :
  shares_no_token entry row →
  row_similarity (normalize_text entry) row = 0%Qc.
Proof.
  intros (Hp & Hs & Ht). rewrite row_similarity_normalize_text.
  unfold row_similarity_raw.
  rewrite !calculate_similarity_disjoint by done. apply py_max3_zero.
Qed.

(** Candidates that all score 0 give no best match. *)
Lemma find_best_match_all_zero entry rows :
  (∀ r, r ∈ rows → row_similarity (normalize_text entry) r = 0%Qc) →
  find_best_match entry rows = (None, 0%Qc).
Proof.
  intros Hz. unfold find_best_match. apply best_match_fold_keep.
  intros x Hx. rewrite (Hz x Hx). apply Qcle_refl.
Qed.

(** Candidates that all score 0 make the loop body raise: the matcher has
    no best match to subscript. *)
Lemma classify_entry_all_zero cls e :
  relevant_rows cls (Entry_Account_Type e) ≠ [] →
  (∀ r, r ∈ relevant_rows cls (Entry_Account_Type e) →
        row_similarity (normalize_text (Entry_Name e)) r = 0%Qc) →
  fst (run (classify_entry cls e)) = inl TypeError.
Proof.
  intros Hne Hz. rewrite classify_entry_run.
  destruct (relevant_rows _ _) as [|r rows]; [done|].
  cbv zeta. by rewrite (find_best_match_all_zero _ _ Hz).
Qed.

(** C2. On the sample tree the candidate rows of the entry "Widget
    Inventory" are not empty and none shares a token with it at any of the
    three levels. The claim has a result with confidence 0 and the three
    fields ["UNKNOWN"] produced for it; the loop body raises [TypeError]
    instead, after the matcher returned no row, and a batch in which this
    entry follows one that is classified returns no result at all. *)
Theorem no_overlap_candidates_raise :
  relevant_rows Sample.tree (Entry_Account_Type Sample.widget_entry) ≠ []
  ∧ Forall (shares_no_token (Entry_Name Sample.widget_entry))
      (relevant_rows Sample.tree (Entry_Account_Type Sample.widget_entry))
  ∧ run (classify_entry Sample.tree Sample.widget_entry)
    = (inl TypeError,
       [Call_find_best_match (PyStr "Widget Inventory")
          [Sample.cash_row; Sample.petty_row; Sample.receivable_row]])
  ∧ (¬ ∃ r, fst (run (classify_entry Sample.tree Sample.widget_entry))
            = inr r
            ∧ confidence r = 0%Qc
            ∧ primaryClassification r = PyStr "UNKNOWN"
            ∧ secondaryClassification r = PyStr "UNKNOWN"
            ∧ tertiaryClassification r = PyStr "UNKNOWN")
  ∧ run (classify_entries [Sample.cash_entry; Sample.widget_entry]
           Sample.tree)
    = (inl TypeError,
       [Call_find_best_match (PyStr "Cash in Bank")
          [Sample.cash_row; Sample.petty_row; Sample.receivable_row];
        Call_find_best_match (PyStr "Widget Inventory")
          [Sample.cash_row; Sample.petty_row; Sample.receivable_row]]).
Proof.
  split; [by vm_compute|].
  split; [repeat constructor; by vm_compute|].
  split; [by vm_compute|].
  split; [|by vm_compute].
  intros (r & Hr & _). vm_compute in Hr. discriminate Hr.
Qed.

(** C1. On the sample tree the entry "Widget Inventory" has three
    candidate rows, each of score 0; the matcher returns no row for it and
    [classify_entries] raises [TypeError] where the claim has it report a
    best row with confidence 0. *)
Theorem zero_score_candidates_raise :
  relevant_rows Sample.tree (Entry_Account_Type Sample.widget_entry)
  = [Sample.cash_row; Sample.petty_row; Sample.receivable_row]
  ∧ Forall (λ r, row_similarity
                   (normalize_text (Entry_Name Sample.widget_entry)) r
                 = 0%Qc)
      [Sample.cash_row; Sample.petty_row; Sample.receivable_row]
  ∧ find_best_match (Entry_Name Sample.widget_entry)
      [Sample.cash_row; Sample.petty_row; Sample.receivable_row]
    = (None, 0%Qc)
  ∧ run (classify_entries [Sample.widget_entry] Sample.tree)
    = (inl TypeError,
       [Call_find_best_match (PyStr "Widget Inventory")
          [Sample.cash_row; Sample.petty_row; Sample.receivable_row]]).
Proof.
  assert (Forall (λ r, row_similarity
                         (normalize_text (Entry_Name Sample.widget_entry)) r
                       = 0%Qc)
            [Sample.cash_row; Sample.petty_row; Sample.receivable_row])
    as Hz by (repeat constructor; apply Qc_is_canon; by vm_compute).
  split; [by vm_compute|]. split; [exact Hz|].
  split; [|by vm_compute].
  apply find_best_match_all_zero. by apply Forall_forall.
Qed.

(** ** Scenarios of the specification *)

Lemma normalize_text_contract_witness :
  isinstance_str PyNaN = false
  ∧ normalize_text PyNaN = EmptyString
  ∧ Forall2 lowercase_of
      (list_ascii_of_string "Cash IN BANK")
      (list_ascii_of_string (normalize_text (PyStr untidy_text)))
  ∧ normalize_text (PyStr untidy_text) = "cash in bank".
Proof.
  split; [reflexivity|].
  split; [apply (proj1 normalize_text_contract PyNaN); reflexivity|].
  split.
  - exact (proj1 (proj2 (proj2 (proj2 (proj2 normalize_text_contract))))
             untidy_text).
  - exact (proj2 (proj2 (proj2 (proj2 (proj2 (proj2
             normalize_text_contract)))))).
Defined.

Example normalize_text_sample :
  normalize_text (PyStr "  Cash   IN  Bank ") = "cash in bank".
Proof. reflexivity. Qed.

Example split_sample : split " cash  in bank " = ["cash"; "in"; "bank"].
Proof. reflexivity. Qed.

Example similarity_sample :
  calculate_similarity (PyStr "Cash in Bank") (PyStr "Bank Accounts")
  = Q2Qc (1 # 4).
Proof. apply Qc_is_canon. by vm_compute. Qed.

(** [1 / 3] is the float [6004799503160661 / 2 ** 54], and [2 / 3] rounds
    the other way. *)
Example int_true_div_third :
  int_true_div 1 3 = Q2Qc (6004799503160661 # 18014398509481984)
  ∧ int_true_div 2 3 = Q2Qc (6004799503160661 # 9007199254740992)
  ∧ int_true_div 1 10 = Q2Qc (3602879701896397 # 36028797018963968).
Proof. repeat split; apply Qc_is_canon; by vm_compute. Qed.

(** A tie is rounded to the even significand. *)
Example int_true_div_tie :
  int_true_div (2 ^ 53 + 1) (2 ^ 54) = Q2Qc (1 # 2)
  ∧ int_true_div (2 ^ 53 + 3) (2 ^ 54) = Q2Qc (2 ^ 52 + 2 # 2 ^ 53).
Proof. repeat split; apply Qc_is_canon; by vm_compute. Qed.

(** Scenario A: an exact match of the tertiary label. *)
Example scenario_exact_tertiary :
  match run (classify_entries [Sample.cash_entry] [Sample.cash_row]) with
  | (inr [r], _) =>
      confidence r = 1%Qc ∧ tertiaryClassification r = PyStr "Cash in Bank"
  | _ => False
  end.
Proof. vm_compute. split; [by apply Qc_is_canon|done]. Qed.

(** The master sheet is named after the account type as the entry has
    it. *)
Example scenario_master_sheet :
  match run (classify_entries [Sample.lowercase_entry] Sample.tree) with
  | (inr [r], _) =>
      accountType r = "asset" ∧ masterSheet r = "asset Master Sheet"
  | _ => False
  end.
Proof. by vm_compute. Qed.

(** * Further properties of the code *)

(** ** normalize_text *)

Lemma split_lower_string s :
  split (lower s)
  = map string_of_list_ascii
      (Chars.split (Chars.lower (list_ascii_of_string s))).
Proof.
  unfold split, lower, on_chars.
  by rewrite list_ascii_of_string_of_list_ascii.
Qed.

Lemma split_normalize_text_lower s :
  split (normalize_text (PyStr s)) = split (lower s).
Proof. by rewrite split_normalize_text, split_lower_string. Qed.

(** X1. Two texts have the same normalization exactly when their
    lowercased forms split into the same sequence of tokens: case and the
    layout of whitespace are all that [normalize_text] forgets. *)
Theorem normalize_text_eq_iff_tokens (s s' : string) :
  normalize_text (PyStr s) = normalize_text (PyStr s')
  ↔ split (lower s) = split (lower s').
Proof.
  split.
  - intros Heq. rewrite <-!split_normalize_text_lower. by rewrite Heq.
  - intros Heq. rewrite !normalize_text_join_split. by rewrite Heq.
Qed.

Lemma chars_split_nil_iff s :
  Chars.split s = [] ↔ Forall (λ c, isspace c = true) s.
Proof.
  induction s as [|c s IH]; [by split; [constructor|]|].
  destruct (isspace c) eqn:Hc.
  - rewrite CharsFacts.split_ws by done. rewrite IH. split.
    + by constructor.
    + by inversion 1.
  - destruct (CharsFacts.split_head c s Hc) as (w & ws & ->).
    split; [done|]. inversion 1; congruence.
Qed.

Lemma string_of_list_ascii_nil l :
  string_of_list_ascii l = EmptyString ↔ l = [].
Proof. by destruct l. Qed.

Lemma normalize_text_empty_iff s :
  normalize_text (PyStr s) = EmptyString
  ↔ Forall (λ c, isspace c = true) (list_ascii_of_string s).
Proof.
  rewrite normalize_text_chars, string_of_list_ascii_nil.
  rewrite CharsFacts.join_nil_iff by apply CharsFacts.split_tokens.
  rewrite CharsFacts.split_lower. unfold Chars.lower.
  rewrite <-chars_split_nil_iff.
  by destruct (Chars.split _).
Qed.

(** X2. The normalization of a value is empty exactly when the value is
    not a [str], or is a [str] that consists of whitespace only (the empty
    [str] included). *)
Theorem normalize_text_empty_iff_whitespace (v : pyval) :
  normalize_text v = EmptyString
  ↔ match v with
    | PyStr s => Forall (λ c, isspace c = true) (list_ascii_of_string s)
    | _ => True
    end.
Proof.
  destruct v as [s| | |]; [|done..].
  rewrite normalize_text_chars, string_of_list_ascii_nil.
  rewrite CharsFacts.join_nil_iff by apply CharsFacts.split_tokens.
  rewrite <-chars_split_nil_iff, CharsFacts.split_lower.
  by destruct (Chars.split _).
Qed.

(** ** calculate_similarity *)

Lemma int_true_div_pos (n m : Z) :
  (0 < n ≤ m)%Z → (0 < int_true_div n m)%Qc.
Proof.
  intros Hnm.
  destruct (int_true_div_nearest n m Hnm) as (mant & s & Hs & -> & Hm & _).
  assert (0 < 2 ^ s)%Z as Hpow by (apply Z.pow_pos_nonneg; lia).
  assert (0 < mant)%Z as Hpos.
  { assert (0 < 2 ^ 52)%Z by done. lia. }
  unfold Qclt. simpl. rewrite !Qred_correct.
  unfold Qlt. simpl. lia.
Qed.

Lemma size_intersection_le_union (X Y : gset string) :
  (size (X ∩ Y) ≤ size (X ∪ Y))%nat.
Proof.
  apply subseteq_size. apply union_subseteq_l', intersection_subseteq_l.
Qed.

Lemma calculate_similarity_zero_iff (a b : pyval) :
  calculate_similarity a b = 0%Qc ↔ token_set a ∩ token_set b = ∅.
Proof.
  split; [|apply calculate_similarity_disjoint].
  unfold calculate_similarity; cbv zeta.
  destruct (decide (token_set a = ∅)) as [->|Ha].
  { intros _. apply leibniz_equiv, intersection_empty_l. }
  destruct (decide (token_set b = ∅)) as [->|Hb].
  { intros _. apply leibniz_equiv, intersection_empty_r. }
  rewrite !bool_decide_eq_false_2 by done. simpl.
  case_bool_decide as Hu.
  - intros Hz.
    destruct (decide (size (token_set a ∩ token_set b) = 0)) as [H0|Hn].
    + by apply leibniz_equiv, size_empty_iff.
    + pose proof (size_intersection_le_union (token_set a) (token_set b))
        as Hle.
      apply Nat.neq_0_lt_0, inj_lt in Hn. apply inj_le in Hle.
      pose proof (int_true_div_pos _ _ (conj Hn Hle)) as Hpos.
      rewrite Hz in Hpos. by apply Qclt_not_eq in Hpos.
  - intros _. exfalso. apply Hu, (inj_lt 0), Nat.neq_0_lt_0.
    rewrite size_non_empty_iff. intros [He _]%empty_union.
    by apply Ha, leibniz_equiv.
Qed.

(** X3. The similarity of two texts is 0 exactly when they have no token
    in common, and positive exactly when some token occurs in both. *)
Theorem similarity_zero_iff_no_common_token (a b : pyval) :
  (calculate_similarity a b = 0%Qc ↔ token_set a ∩ token_set b = ∅)
  ∧ ((0 < calculate_similarity a b)%Qc
     ↔ ∃ tok, tok ∈ token_set a ∧ tok ∈ token_set b).
Proof.
  split; [apply calculate_similarity_zero_iff|].
  pose proof (calculate_similarity_bounds a b) as [H0 _].
  split.
  - intros Hpos.
    destruct (set_choose_or_empty (token_set a ∩ token_set b))
      as [[tok Htok]|He].
    + exists tok. by apply elem_of_intersection.
    + apply leibniz_equiv, calculate_similarity_zero_iff in He.
      rewrite He in Hpos. by apply Qclt_not_eq in Hpos.
  - intros (tok & Ha & Hb).
    apply Qcle_lt_or_eq in H0 as [Hlt|Heq]; [done|]. exfalso.
    symmetry in Heq. apply calculate_similarity_zero_iff in Heq.
    assert (tok ∈ token_set a ∩ token_set b) as Hin
      by by apply elem_of_intersection.
    rewrite Heq in Hin. by apply not_elem_of_empty in Hin.
Qed.

Lemma token_set_not_str v : isinstance_str v = false → token_set v = ∅.
Proof. by destruct v. Qed.

(** X4. A value that is not a [str] (a missing label, a number) has
    similarity 0 with everything, on either side. *)
Theorem similarity_not_str (v b : pyval) :
  isinstance_str v = false →
  calculate_similarity v b = 0%Qc ∧ calculate_similarity b v = 0%Qc.
Proof.
  intros Hv. rewrite !calculate_similarity_zero_iff.
  rewrite (token_set_not_str v Hv).
  split; apply leibniz_equiv;
    [apply intersection_empty_l|apply intersection_empty_r].
Qed.

Lemma similarity_not_str_witness :
  isinstance_str PyNaN = false
  ∧ calculate_similarity PyNaN (PyStr "Cash") = 0%Qc
  ∧ calculate_similarity (PyStr "Cash") PyNaN = 0%Qc.
Proof.
  split; [reflexivity|].
  apply (similarity_not_str PyNaN (PyStr "Cash")). reflexivity.
Defined.

Lemma calculate_similarity_same_tokens (a b : pyval) :
  token_set a = token_set b → token_set a ≠ ∅ →
  calculate_similarity a b = 1%Qc.
Proof.
  intros Heq Hne. rewrite <-(calculate_similarity_self a Hne).
  unfold calculate_similarity. by rewrite Heq.
Qed.

(** X5. Two texts with the same set of tokens, not empty, have similarity
    1: the order of the words, their case, their repetition and the
    whitespace between them do not count. *)
Theorem similarity_same_tokens (a b : pyval) :
  token_set a = token_set b → token_set a ≠ ∅ →
  calculate_similarity a b = 1%Qc.
Proof.
  intros Heq Hne. rewrite <-(calculate_similarity_self a Hne).
  unfold calculate_similarity. by rewrite Heq.
Qed.

Lemma similarity_same_tokens_witness :
  token_set (PyStr "Bank  CASH cash") = token_set (PyStr "cash bank")
  ∧ token_set (PyStr "Bank  CASH cash") ≠ ∅
  ∧ calculate_similarity (PyStr "Bank  CASH cash") (PyStr "cash bank")
    = 1%Qc.
Proof.
  assert (token_set (PyStr "Bank  CASH cash") = token_set (PyStr "cash bank"))
    as Heq by (apply (bool_decide_unpack _); by vm_compute).
  assert (token_set (PyStr "Bank  CASH cash") ≠ ∅)
    as Hne by (apply (bool_decide_unpack _); by vm_compute).
  split; [exact Heq|]. split; [exact Hne|].
  exact (similarity_same_tokens _ _ Heq Hne).
Defined.

(** ** find_best_match *)

Lemma py_max_ge_l (a b : Qc) : (a ≤ py_max a b)%Qc.
Proof.
  unfold py_max. case_bool_decide; [by apply Qclt_le_weak|apply Qcle_refl].
Qed.

Lemma py_max_ge_r (a b : Qc) : (b ≤ py_max a b)%Qc.
Proof.
  unfold py_max. case_bool_decide; [apply Qcle_refl|by apply Qcnot_lt_le].
Qed.

Lemma row_similarity_raw_ge entry row label :
  label ∈ labels row →
  (calculate_similarity entry label ≤ row_similarity_raw entry row)%Qc.
Proof.
  unfold labels, row_similarity_raw, py_max3.
  rewrite !elem_of_cons, elem_of_nil. intros [->|[->|[->|[]]]].
  - eapply Qcle_trans; [apply py_max_ge_l|apply py_max_ge_l].
  - eapply Qcle_trans; [apply py_max_ge_r|apply py_max_ge_l].
  - apply py_max_ge_r.
Qed.

Lemma py_max3_zero_iff (a b c : Qc) :
  (0 ≤ a)%Qc → (0 ≤ b)%Qc → (0 ≤ c)%Qc →
  py_max3 a b c = 0%Qc ↔ a = 0%Qc ∧ b = 0%Qc ∧ c = 0%Qc.
Proof.
  intros Ha Hb Hc. split; [|by intros (-> & -> & ->)].
  intros Hz.
  pose proof (py_max_ge_r (py_max a b) c) as H3.
  pose proof (py_max_ge_l (py_max a b) c) as H12.
  pose proof (py_max_ge_l a b) as H1. pose proof (py_max_ge_r a b) as H2.
  fold (py_max3 a b c) in H3, H12. rewrite Hz in H3, H12.
  assert (py_max a b = 0%Qc) as Hab.
  { apply Qcle_antisym; [done|]. exact (Qcle_trans _ _ _ Ha H1). }
  rewrite Hab in H1, H2.
  repeat split; by apply Qcle_antisym.
Qed.

Lemma row_similarity_zero_iff entry row :
  row_similarity (normalize_text entry) row = 0%Qc
  ↔ shares_no_token entry row.
Proof.
  rewrite row_similarity_normalize_text. unfold row_similarity_raw.
  rewrite py_max3_zero_iff by apply calculate_similarity_bounds.
  unfold shares_no_token. by rewrite !calculate_similarity_zero_iff.
Qed.

(** What the loop over the rows leaves: the state it started from, when no
    row beats the running maximum, and otherwise the first row that
    reaches the largest score. *)
Lemma best_match_fold_spec entry rows best_match max_similarity :
  (fold_left (best_match_step entry) rows (best_match, max_similarity)
   = (best_match, max_similarity)
   ∧ ∀ x, x ∈ rows → (row_similarity entry x ≤ max_similarity)%Qc)
  ∨ ∃ l1 row l2,
      rows = (l1 ++ row :: l2)%list
      ∧ fold_left (best_match_step entry) rows (best_match, max_similarity)
        = (Some (match_of_row row), row_similarity entry row)
      ∧ (max_similarity < row_similarity entry row)%Qc
      ∧ (∀ x, x ∈ l1 →
              (row_similarity entry x < row_similarity entry row)%Qc)
      ∧ (∀ x, x ∈ l2 →
              (row_similarity entry x ≤ row_similarity entry row)%Qc).
Proof.
  revert best_match max_similarity.
  induction rows as [|row rows IH]; intros bm m.
  { left. split; [done|]. by intros x ?%elem_of_nil. }
  simpl. destruct (Qclt_le_dec m (row_similarity entry row)) as [Hgt|Hle].
  - rewrite best_match_step_take by done. right.
    destruct (IH (Some (match_of_row row)) (row_similarity entry row))
      as [[Hst Hall]|(l1 & r & l2 & -> & Hst & Hlt & H1 & H2)].
    + exists [], row, rows. repeat split; try done.
      by intros x ?%elem_of_nil.
    + exists (row :: l1), r, l2. repeat split; try done.
      * by apply Qclt_trans with (row_similarity entry row).
      * intros x [->|Hx]%elem_of_cons; [done|by apply H1].
  - rewrite best_match_step_keep by done.
    destruct (IH bm m)
      as [[Hst Hall]|(l1 & r & l2 & -> & Hst & Hlt & H1 & H2)].
    + left. split; [done|].
      intros x [->|Hx]%elem_of_cons; [done|by apply Hall].
    + right. exists (row :: l1), r, l2. repeat split; try done.
      intros x [->|Hx]%elem_of_cons; [|by apply H1].
      by apply Qcle_lt_trans with m.
Qed.

Lemma find_best_match_spec entry rows :
  (find_best_match entry rows = (None, 0%Qc)
   ∧ ∀ x, x ∈ rows → row_similarity (normalize_text entry) x = 0%Qc)
  ∨ ∃ l1 row l2,
      rows = (l1 ++ row :: l2)%list
      ∧ find_best_match entry rows
        = (Some (match_of_row row),
           row_similarity (normalize_text entry) row)
      ∧ (0 < row_similarity (normalize_text entry) row)%Qc
      ∧ (∀ x, x ∈ l1 →
              (row_similarity (normalize_text entry) x
               < row_similarity (normalize_text entry) row)%Qc)
      ∧ (∀ x, x ∈ l2 →
              (row_similarity (normalize_text entry) x
               ≤ row_similarity (normalize_text entry) row)%Qc).
Proof.
  unfold find_best_match.
  destruct (best_match_fold_spec (normalize_text entry) rows None 0%Qc)
    as [[Hst Hall]|Hex]; [left|by right].
  split; [done|]. intros x Hx. apply Qcle_antisym; [by apply Hall|].
  apply row_similarity_bounds.
Qed.

(** X6. The matcher returns no row exactly when no candidate row shares a
    token with the entry name at any of the three levels (in particular
    for an empty list of candidates); its score is then 0. *)
Theorem find_best_match_none_iff (entry : pyval)
    (rows : list ClassificationRow) :
  (fst (find_best_match entry rows) = None
   ↔ ∀ r, r ∈ rows → shares_no_token entry r)
  ∧ (fst (find_best_match entry rows) = None →
     snd (find_best_match entry rows) = 0%Qc).
Proof.
  destruct (find_best_match_spec entry rows)
    as [[Hst Hall]|(l1 & row & l2 & -> & Hst & Hpos & _)]; rewrite Hst.
  - split; [|done]. split; [|done].
    intros _ r Hr. by apply row_similarity_zero_iff, Hall.
  - split; [|done]. split; [done|]. intros Hno. exfalso.
    assert (row ∈ (l1 ++ row :: l2)%list) as Hin
      by (apply elem_of_app; right; left).
    apply Hno, row_similarity_zero_iff in Hin.
    rewrite Hin in Hpos. by apply Qclt_not_eq in Hpos.
Qed.

Lemma find_best_match_none_iff_witness :
  (∀ r, r ∈ [Sample.cash_row; Sample.petty_row] →
        shares_no_token (PyStr "Widget Inventory") r)
  ∧ fst (find_best_match (PyStr "Widget Inventory")
           [Sample.cash_row; Sample.petty_row]) = None
  ∧ snd (find_best_match (PyStr "Widget Inventory")
           [Sample.cash_row; Sample.petty_row]) = 0%Qc.
Proof.
  assert (∀ r, r ∈ [Sample.cash_row; Sample.petty_row] →
               shares_no_token (PyStr "Widget Inventory") r) as Hno.
  { apply Forall_forall. repeat constructor; by vm_compute. }
  pose proof (find_best_match_none_iff (PyStr "Widget Inventory")
                [Sample.cash_row; Sample.petty_row]) as [Hiff Hz].
  split; [exact Hno|].
  split; [exact (proj2 Hiff Hno)|exact (Hz (proj2 Hiff Hno))].
Defined.

(** X7. The score the matcher returns is the largest score of the
    candidate rows; when it returns a row, that row is the first candidate
    whose score reaches the largest one, and this score is positive. *)
Theorem find_best_match_is_first_maximum (entry : pyval)
    (rows : list ClassificationRow) :
  (∀ r, r ∈ rows →
        (row_similarity (normalize_text entry) r
         ≤ snd (find_best_match entry rows))%Qc)
  ∧ match fst (find_best_match entry rows) with
    | None => snd (find_best_match entry rows) = 0%Qc
    | Some d =>
        ∃ l1 row l2,
          rows = (l1 ++ row :: l2)%list
          ∧ d = match_of_row row
          ∧ row_similarity (normalize_text entry) row
            = snd (find_best_match entry rows)
          ∧ (0 < snd (find_best_match entry rows))%Qc
          ∧ ∀ x, x ∈ l1 →
                 (row_similarity (normalize_text entry) x
                  < snd (find_best_match entry rows))%Qc
    end.
Proof.
  destruct (find_best_match_spec entry rows)
    as [[Hst Hall]|(l1 & row & l2 & -> & Hst & Hpos & H1 & H2)];
    rewrite Hst; simpl.
  - split; [|done]. intros r Hr. rewrite (Hall r Hr). apply Qcle_refl.
  - split.
    + intros r [Hr|[->|Hr]%elem_of_cons]%elem_of_app.
      * by apply Qclt_le_weak, H1.
      * apply Qcle_refl.
      * by apply H2.
    + by exists l1, row, l2.
Qed.

Lemma find_best_match_ge entry rows r :
  r ∈ rows →
  (row_similarity (normalize_text entry) r
   ≤ snd (find_best_match entry rows))%Qc.
Proof.
  destruct (find_best_match_spec entry rows)
    as [[Hst Hall]|(l1 & row & l2 & -> & Hst & Hpos & H1 & H2)];
    rewrite Hst; simpl.
  - intros Hr. rewrite (Hall r Hr). apply Qcle_refl.
  - intros [Hr|[->|Hr]%elem_of_cons]%elem_of_app.
    + by apply Qclt_le_weak, H1.
    + apply Qcle_refl.
    + by apply H2.
Qed.

Lemma row_similarity_exact_label entry row label :
  label ∈ labels row →
  token_set label = token_set entry → token_set entry ≠ ∅ →
  row_similarity (normalize_text entry) row = 1%Qc.
Proof.
  intros Hl Heq Hne. rewrite row_similarity_normalize_text.
  apply Qcle_antisym.
  - rewrite <-row_similarity_normalize_text. apply row_similarity_bounds.
  - rewrite <-(calculate_similarity_same_tokens entry label) by done.
    by apply row_similarity_raw_ge.
Qed.

Lemma find_best_match_exact entry rows row label :
  row ∈ rows → label ∈ labels row →
  token_set label = token_set entry → token_set entry ≠ ∅ →
  ∃ d, find_best_match entry rows = (Some d, 1%Qc).
Proof.
  intros Hrow Hl Heq Hne.
  pose proof (row_similarity_exact_label entry row label Hl Heq Hne) as H1.
  pose proof (find_best_match_ge entry rows row Hrow) as Hge.
  pose proof (find_best_match_bounds entry rows) as [_ Hle].
  rewrite H1 in Hge.
  assert (snd (find_best_match entry rows) = 1%Qc) as Hs
    by by apply Qcle_antisym.
  destruct (find_best_match entry rows) as [[d|] score] eqn:Hfbm;
    simpl in Hs; subst score; [by exists d|].
  destruct (find_best_match_spec entry rows)
    as [[Hst _]|(l1 & r & l2 & _ & Hst & _)]; [|congruence].
  rewrite Hfbm in Hst. injection Hst as H10. discriminate H10.
Qed.

(** X8. When a label of some candidate row has the tokens of the entry
    name (and the entry name has a token), the matcher returns score 1 and
    the first candidate row whose score is 1. *)
Theorem find_best_match_exact_label (entry : pyval)
    (rows : list ClassificationRow) (row : ClassificationRow)
    (label : pyval) :
  row ∈ rows → label ∈ labels row →
  token_set label = token_set entry → token_set entry ≠ ∅ →
  ∃ l1 best l2,
    rows = (l1 ++ best :: l2)%list
    ∧ find_best_match entry rows = (Some (match_of_row best), 1%Qc)
    ∧ row_similarity (normalize_text entry) best = 1%Qc
    ∧ ∀ x, x ∈ l1 → (row_similarity (normalize_text entry) x < 1)%Qc.
Proof.
  intros Hrow Hl Heq Hne.
  destruct (find_best_match_exact entry rows row label Hrow Hl Heq Hne)
    as [d Hd].
  destruct (find_best_match_spec entry rows)
    as [[Hst _]|(l1 & best & l2 & Hsplit & Hst & _ & H1 & _)];
    rewrite Hd in Hst; [done|].
  injection Hst as -> Hscore. rewrite <-Hscore in H1.
  by exists l1, best, l2.
Qed.

Lemma find_best_match_exact_label_witness :
  Sample.cash_row ∈ [Sample.receivable_row; Sample.cash_row]
  ∧ PyStr "Cash in Bank" ∈ labels Sample.cash_row
  ∧ token_set (PyStr "Cash in Bank") = token_set (PyStr "bank IN cash")
  ∧ token_set (PyStr "bank IN cash") ≠ ∅
  ∧ ∃ l1 best l2,
      [Sample.receivable_row; Sample.cash_row] = (l1 ++ best :: l2)%list
      ∧ find_best_match (PyStr "bank IN cash")
          [Sample.receivable_row; Sample.cash_row]
        = (Some (match_of_row best), 1%Qc)
      ∧ row_similarity (normalize_text (PyStr "bank IN cash")) best = 1%Qc
      ∧ ∀ x, x ∈ l1 →
             (row_similarity (normalize_text (PyStr "bank IN cash")) x
              < 1)%Qc.
Proof.
  assert (Sample.cash_row ∈ [Sample.receivable_row; Sample.cash_row])
    as Hrow by (right; left).
  assert (PyStr "Cash in Bank" ∈ labels Sample.cash_row)
    as Hl by (right; right; left).
  assert (token_set (PyStr "Cash in Bank")
          = token_set (PyStr "bank IN cash"))
    as Heq by (apply (bool_decide_unpack _); by vm_compute).
  assert (token_set (PyStr "bank IN cash") ≠ ∅)
    as Hne by (apply (bool_decide_unpack _); by vm_compute).
  split; [exact Hrow|]. split; [exact Hl|].
  split; [exact Heq|]. split; [exact Hne|].
  exact (find_best_match_exact_label _ _ _ _ Hrow Hl Heq Hne).
Defined.

(** ** classify_entries *)

Lemma classify_entry_calls cls e :
  snd (run (classify_entry cls e)) = calls_of cls e.
Proof.
  rewrite classify_entry_run. unfold calls_of.
  destruct (relevant_rows _ _) as [|r rows]; [done|].
  cbv zeta. by destruct (find_best_match _ _) as [[d|] score].
Qed.

(** The loop from any accumulator and log, in terms of a run from
    scratch. *)
Lemma classify_loop_run cls es acc log :
  classify_loop cls es acc log
  = match run (classify_entries es cls) with
    | (inr rs, l) => (inr (acc ++ rs)%list, (log ++ l)%list)
    | (inl x, l) => (inl x, (log ++ l)%list)
    end.
Proof.
  unfold run, classify_entries. revert acc log.
  induction es as [|e es IH]; intros acc log.
  - simpl. unfold mret, M_ret, ret. by rewrite !app_nil_r.
  - cbn [classify_loop]. unfold mbind, M_bind, bind.
    rewrite (classify_entry_log cls e log), (classify_entry_log cls e []).
    destruct (fst (run (classify_entry cls e))) as [x|r]; [done|].
    rewrite (IH (acc ++ [r])%list), (IH ([] ++ [r])%list).
    destruct (classify_loop cls es [] []) as [[x|rs] l]; simpl;
      by rewrite <-!app_assoc.
Qed.

Lemma classify_entries_cons e es cls :
  run (classify_entries (e :: es) cls)
  = match run (classify_entry cls e) with
    | (inl x, l) => (inl x, l)
    | (inr r, l) =>
        match run (classify_entries es cls) with
        | (inl x, l') => (inl x, (l ++ l')%list)
        | (inr rs, l') => (inr (r :: rs), (l ++ l')%list)
        end
    end.
Proof.
  transitivity (classify_loop cls (e :: es) [] []); [reflexivity|].
  cbn [classify_loop]. unfold mbind, M_bind, bind.
  rewrite (classify_entry_log cls e []).
  destruct (run (classify_entry cls e)) as [[x|r] l]; simpl; [done|].
  rewrite classify_loop_run.
  by destruct (run (classify_entries es cls)) as [[x|rs] l'].
Qed.

(** X9. A batch is classified entry by entry, in order: the run on
    [es1 ++ es2] is the run on [es1] followed by the run on [es2], the
    results and the logged calls concatenated; once an entry raises, nothing
    of what follows is classified or handed to the matcher. *)
Theorem classify_entries_app (es1 es2 : list EntryRow)
    (cls : list ClassificationRow) :
  run (classify_entries (es1 ++ es2)%list cls)
  = match run (classify_entries es1 cls) with
    | (inl x, l1) => (inl x, l1)
    | (inr rs1, l1) =>
        match run (classify_entries es2 cls) with
        | (inl x, l2) => (inl x, (l1 ++ l2)%list)
        | (inr rs2, l2) => (inr (rs1 ++ rs2)%list, (l1 ++ l2)%list)
        end
    end.
Proof.
  induction es1 as [|e es1 IH].
  - simpl. by destruct (run (classify_entries es2 cls)) as [[x|rs] l].
  - rewrite <-app_comm_cons, !classify_entries_cons, IH.
    destruct (run (classify_entry cls e)) as [[x|r] l]; [done|].
    destruct (run (classify_entries es1 cls)) as [[x|rs1] l1]; [done|].
    destruct (run (classify_entries es2 cls)) as [[x|rs2] l2];
      by rewrite app_assoc.
Qed.

Lemma find_best_match_fst_none entry rows :
  fst (find_best_match entry rows) = None
  ↔ ∀ r, r ∈ rows → shares_no_token entry r.
Proof.
  destruct (find_best_match_spec entry rows)
    as [[Hst Hall]|(l1 & row & l2 & -> & Hst & Hpos & _)]; rewrite Hst.
  - split; [|done]. intros _ r Hr. by apply row_similarity_zero_iff, Hall.
  - split; [done|]. intros Hno. exfalso.
    assert (row ∈ (l1 ++ row :: l2)%list) as Hin
      by (apply elem_of_app; right; left).
    apply Hno, row_similarity_zero_iff in Hin.
    rewrite Hin in Hpos. by apply Qclt_not_eq in Hpos.
Qed.

Lemma classify_entry_raises_iff cls e :
  fst (run (classify_entry cls e)) = inl TypeError
  ↔ relevant_rows cls (Entry_Account_Type e) ≠ []
    ∧ ∀ r, r ∈ relevant_rows cls (Entry_Account_Type e) →
           shares_no_token (Entry_Name e) r.
Proof.
  rewrite classify_entry_run.
  destruct (relevant_rows _ _) as [|row rows] eqn:Hrel.
  { split; [done|]. by intros [? _]. }
  cbv zeta. rewrite <-find_best_match_fst_none.
  destruct (find_best_match _ _) as [[d|] score]; simpl.
  - split; [done|]. by intros [_ ?].
  - done.
Qed.

(** X10. On a batch whose account types are [str], as [EntryRow] has
    them, [classify_entries] raises the [TypeError] of subscripting [None]
    exactly when some entry of the batch has candidate rows of which none
    shares a token with the entry name. *)
Theorem classify_entries_raises_iff (es : list EntryRow)
    (cls : list ClassificationRow) :
  fst (run (classify_entries es cls)) = inl TypeError
  ↔ ∃ e, e ∈ es
         ∧ relevant_rows cls (Entry_Account_Type e) ≠ []
         ∧ ∀ r, r ∈ relevant_rows cls (Entry_Account_Type e) →
                shares_no_token (Entry_Name e) r.
Proof.
  induction es as [|e es IH].
  { split; [done|]. by intros (e & ?%elem_of_nil & _). }
  rewrite classify_entries_cons.
  pose proof (classify_entry_raises_iff cls e) as He.
  destruct (run (classify_entry cls e)) as [[[]|r] l]; simpl in *.
  - split; [|done]. intros _. exists e. split; [left|]. by apply He.
  - destruct (run (classify_entries es cls)) as [[[]|rs] l']; simpl in *.
    + split; [|done]. intros _.
      destruct (proj1 IH eq_refl) as (e' & Hin & Hrest).
      exists e'. split; [by right|done].
    + split; [done|]. intros (e' & [->|Hin]%elem_of_cons & Hrest).
      * by apply He in Hrest.
      * assert (∃ e0, e0 ∈ es
                 ∧ relevant_rows cls (Entry_Account_Type e0) ≠ []
                 ∧ ∀ r, r ∈ relevant_rows cls (Entry_Account_Type e0) →
                        shares_no_token (Entry_Name e0) r) as Hex
          by by exists e'.
        by apply IH in Hex.
Qed.

Lemma relevant_rows_elem_of cls account_type r :
  r ∈ relevant_rows cls account_type
  ↔ r ∈ cls ∧ equal_ignoring_case (Account_Type r) account_type.
Proof.
  unfold relevant_rows. rewrite list_elem_of_filter.
  rewrite equal_ignoring_case_lower. tauto.
Qed.

(** What a returned result holds: the entry's own fields, and either the
    fallback, or the labels and the score of the best candidate row. *)
Lemma classify_entry_result cls e r :
  fst (run (classify_entry cls e)) = inr r →
  entryName r = Entry_Name e
  ∧ accountType r = Entry_Account_Type e
  ∧ masterSheet r = (Entry_Account_Type e ++ " Master Sheet")%string
  ∧ ((relevant_rows cls (Entry_Account_Type e) = []
      ∧ primaryClassification r = PyStr "UNKNOWN"
      ∧ secondaryClassification r = PyStr "UNKNOWN"
      ∧ tertiaryClassification r = PyStr "UNKNOWN"
      ∧ confidence r = 0%Qc)
     ∨ ∃ row,
         row ∈ cls
         ∧ equal_ignoring_case (Account_Type row) (Entry_Account_Type e)
         ∧ primaryClassification r = Primary_Classification row
         ∧ secondaryClassification r = Secondary_Classification row
         ∧ tertiaryClassification r = Tertiary_Classification row
         ∧ confidence r = row_similarity (normalize_text (Entry_Name e)) row
         ∧ (0 < confidence r)%Qc
         ∧ ∀ x, x ∈ relevant_rows cls (Entry_Account_Type e) →
                (row_similarity (normalize_text (Entry_Name e)) x
                 ≤ confidence r)%Qc).
Proof.
  rewrite classify_entry_run.
  destruct (relevant_rows _ _) as [|row0 rows] eqn:Hrel.
  { intros [= <-]. repeat split. by left. }
  cbv zeta.
  pose proof (find_best_match_ge (Entry_Name e) (row0 :: rows)) as Hge.
  destruct (find_best_match_spec (Entry_Name e) (row0 :: rows))
    as [[Hst _]|(l1 & row & l2 & Hsplit & Hst & Hpos & _)];
    rewrite Hst in *; [done|].
  intros [= <-]. simpl in *. repeat split. right. exists row.
  assert (row ∈ relevant_rows cls (Entry_Account_Type e)) as Hin.
  { rewrite Hrel, Hsplit. apply elem_of_app. right. left. }
  apply relevant_rows_elem_of in Hin as [Hcls Hcase].
  by repeat split.
Qed.

(** X11. Every returned result carries the name and the account type of
    its entry unchanged, and the master sheet named after that account
    type; there is one result per entry, in the order of the entries. *)
Theorem results_carry_entry_fields (es : list EntryRow)
    (cls : list ClassificationRow) (rs : list Classification)
    (log : list event) :
  run (classify_entries es cls) = (inr rs, log) →
  Forall2 (λ e r,
             entryName r = Entry_Name e
             ∧ accountType r = Entry_Account_Type e
             ∧ masterSheet r
               = (Entry_Account_Type e ++ " Master Sheet")%string)
    es rs.
Proof.
  intros Hrun%classify_entries_results.
  induction Hrun as [|e r es rs Hr _ IH]; constructor; [|done].
  apply classify_entry_result in Hr. tauto.
Qed.

Lemma results_carry_entry_fields_witness :
  let out := run (classify_entries Sample.batch Sample.tree) in
  match fst out with
  | inr rs =>
      map masterSheet rs
      = ["Asset Master Sheet"; "Equity Master Sheet"; "ASSET Master Sheet"]
      ∧ Forall2 (λ e r,
                   entryName r = Entry_Name e
                   ∧ accountType r = Entry_Account_Type e
                   ∧ masterSheet r
                     = (Entry_Account_Type e ++ " Master Sheet")%string)
          Sample.batch rs
  | inl _ => False
  end.
Proof.
  intros out.
  destruct out as [[ex|rs] log] eqn:Hout; simpl.
  - vm_compute in Hout. discriminate Hout.
  - split.
    + vm_compute in Hout. injection Hout as <- _. reflexivity.
    + exact (results_carry_entry_fields _ _ rs log Hout).
Defined.

(** X12. Every returned result is either the fallback of an entry without
    candidate rows, or holds the three labels of one row of the table whose
    account type equals the entry's up to case, with that row's score as
    confidence; the score is positive and no candidate row scores
    higher. *)
Theorem results_are_best_candidates (es : list EntryRow)
    (cls : list ClassificationRow) (rs : list Classification)
    (log : list event) :
  run (classify_entries es cls) = (inr rs, log) →
  Forall2 (λ e r,
             (relevant_rows cls (Entry_Account_Type e) = []
              ∧ primaryClassification r = PyStr "UNKNOWN"
              ∧ secondaryClassification r = PyStr "UNKNOWN"
              ∧ tertiaryClassification r = PyStr "UNKNOWN"
              ∧ confidence r = 0%Qc)
             ∨ ∃ row,
                 row ∈ cls
                 ∧ equal_ignoring_case (Account_Type row)
                     (Entry_Account_Type e)
                 ∧ primaryClassification r = Primary_Classification row
                 ∧ secondaryClassification r = Secondary_Classification row
                 ∧ tertiaryClassification r = Tertiary_Classification row
                 ∧ confidence r
                   = row_similarity (normalize_text (Entry_Name e)) row
                 ∧ (0 < confidence r)%Qc
                 ∧ ∀ x, x ∈ relevant_rows cls (Entry_Account_Type e) →
                        (row_similarity (normalize_text (Entry_Name e)) x
                         ≤ confidence r)%Qc)
    es rs.
Proof.
  intros Hrun%classify_entries_results.
  induction Hrun as [|e r es rs Hr _ IH]; constructor; [|done].
  apply classify_entry_result in Hr. tauto.
Qed.

Lemma results_are_best_candidates_witness :
  let out := run (classify_entries Sample.batch Sample.tree) in
  match fst out with
  | inr rs =>
      map tertiaryClassification rs
      = [PyStr "Cash in Bank"; PyStr "UNKNOWN"; PyStr "Accounts Receivable"]
      ∧ Forall2 (λ e r,
             (relevant_rows Sample.tree (Entry_Account_Type e) = []
              ∧ primaryClassification r = PyStr "UNKNOWN"
              ∧ secondaryClassification r = PyStr "UNKNOWN"
              ∧ tertiaryClassification r = PyStr "UNKNOWN"
              ∧ confidence r = 0%Qc)
             ∨ ∃ row,
                 row ∈ Sample.tree
                 ∧ equal_ignoring_case (Account_Type row)
                     (Entry_Account_Type e)
                 ∧ primaryClassification r = Primary_Classification row
                 ∧ secondaryClassification r = Secondary_Classification row
                 ∧ tertiaryClassification r = Tertiary_Classification row
                 ∧ confidence r
                   = row_similarity (normalize_text (Entry_Name e)) row
                 ∧ (0 < confidence r)%Qc
                 ∧ ∀ x, x ∈ relevant_rows Sample.tree
                              (Entry_Account_Type e) →
                        (row_similarity (normalize_text (Entry_Name e)) x
                         ≤ confidence r)%Qc)
          Sample.batch rs
  | inl _ => False
  end.
Proof.
  intros out.
  destruct out as [[ex|rs] log] eqn:Hout; simpl.
  - vm_compute in Hout. discriminate Hout.
  - split.
    + vm_compute in Hout. injection Hout as <- _. reflexivity.
    + exact (results_are_best_candidates _ _ rs log Hout).
Defined.

(** X13. A returned result has confidence 0 exactly when its entry has no
    candidate row, that is, when it is the fallback. *)
Theorem zero_confidence_iff_fallback (es : list EntryRow)
    (cls : list ClassificationRow) (rs : list Classification)
    (log : list event) :
  run (classify_entries es cls) = (inr rs, log) →
  Forall2 (λ e r,
             confidence r = 0%Qc
             ↔ relevant_rows cls (Entry_Account_Type e) = [])
    es rs.
Proof.
  intros Hrun%classify_entries_results.
  induction Hrun as [|e r es rs Hr _ IH]; constructor; [|done].
  pose proof Hr as Hres%classify_entry_result.
  destruct Hres as (_ & _ & _ & [(Hrel & _ & _ & _ & Hz)|Hrow]); [done|].
  destruct Hrow as (row & _ & _ & _ & _ & _ & _ & Hpos & _).
  split.
  - intros Hz. rewrite Hz in Hpos. by apply Qclt_not_eq in Hpos.
  - intros Hrel. rewrite classify_entry_run, Hrel in Hr.
    injection Hr as <-. done.
Qed.

Lemma zero_confidence_iff_fallback_witness :
  let out := run (classify_entries Sample.batch Sample.tree) in
  match fst out with
  | inr rs =>
      Forall2 (λ e r,
                 confidence r = 0%Qc
                 ↔ relevant_rows Sample.tree (Entry_Account_Type e) = [])
        Sample.batch rs
  | inl _ => False
  end.
Proof.
  intros out.
  destruct out as [[ex|rs] log] eqn:Hout; simpl.
  - vm_compute in Hout. discriminate Hout.
  - exact (zero_confidence_iff_fallback _ _ rs log Hout).
Defined.

(** X14. When the batch returns, the matcher was called exactly once for
    each entry that has candidate rows, in the order of the entries, with
    the entry's name and its candidate rows; it was never called for an
    entry without candidates. *)
Theorem matcher_calls_of_batch (es : list EntryRow)
    (cls : list ClassificationRow) (rs : list Classification)
    (log : list event) :
  run (classify_entries es cls) = (inr rs, log) →
  log = concat (map (calls_of cls) es).
Proof.
  revert rs log. induction es as [|e es IH]; intros rs log.
  { by intros [= _ <-]. }
  rewrite classify_entries_cons.
  pose proof (classify_entry_calls cls e) as Hc.
  destruct (run (classify_entry cls e)) as [[x|r] l]; [done|].
  destruct (run (classify_entries es cls)) as [[x|rs'] l']; [done|].
  intros [= _ <-]. simpl in Hc. subst l. simpl. f_equal. by eapply IH.
Qed.

Lemma matcher_calls_of_batch_witness :
  let out := run (classify_entries Sample.batch Sample.tree) in
  match fst out with
  | inr rs =>
      snd out
      = [Call_find_best_match (PyStr "Cash in Bank")
           [Sample.cash_row; Sample.petty_row; Sample.receivable_row];
         Call_find_best_match (PyStr "Accounts Receivable")
           [Sample.cash_row; Sample.petty_row; Sample.receivable_row]]
      ∧ snd out = concat (map (calls_of Sample.tree) Sample.batch)
  | inl _ => False
  end.
Proof.
  intros out.
  destruct out as [[ex|rs] log] eqn:Hout; simpl.
  - vm_compute in Hout. discriminate Hout.
  - split.
    + vm_compute in Hout. injection Hout as _ <-. reflexivity.
    + exact (matcher_calls_of_batch _ _ rs log Hout).
Defined.

Lemma relevant_rows_ignoring_case cls t t' :
  equal_ignoring_case t t' → relevant_rows cls t = relevant_rows cls t'.
Proof.
  intros Heq%equal_ignoring_case_lower. unfold relevant_rows.
  by rewrite Heq.
Qed.

(** X15. The case of the entry's account type does not change the
    classification: two entries with the same name whose account types
    are equal up to case cause the same matcher calls and either both
    raise, or get the same three labels and the same confidence. *)
Theorem account_type_case_is_irrelevant (cls : list ClassificationRow)
    (name : pyval) (t t' : string) :
  equal_ignoring_case t t' →
  let e := {| Entry_Name := name; Entry_Account_Type := t |} in
  let e' := {| Entry_Name := name; Entry_Account_Type := t' |} in
  snd (run (classify_entry cls e)) = snd (run (classify_entry cls e'))
  ∧ match fst (run (classify_entry cls e)),
          fst (run (classify_entry cls e')) with
    | inr r, inr r' =>
        primaryClassification r = primaryClassification r'
        ∧ secondaryClassification r = secondaryClassification r'
        ∧ tertiaryClassification r = tertiaryClassification r'
        ∧ confidence r = confidence r'
    | inl x, inl x' => x = x'
    | _, _ => False
    end.
Proof.
  intros Heq e e'. rewrite !classify_entry_run. subst e e'. simpl.
  rewrite (relevant_rows_ignoring_case cls t t' Heq).
  destruct (relevant_rows cls t') as [|row rows]; [done|].
  by destruct (find_best_match _ _) as [[d|] score].
Qed.

Lemma account_type_case_is_irrelevant_witness :
  equal_ignoring_case "asset" "ASSET"
  ∧ snd (run (classify_entry Sample.tree
                {| Entry_Name := PyStr "Petty Cash";
                   Entry_Account_Type := "asset" |}))
    = snd (run (classify_entry Sample.tree
                  {| Entry_Name := PyStr "Petty Cash";
                     Entry_Account_Type := "ASSET" |}))
  ∧ match fst (run (classify_entry Sample.tree
                      {| Entry_Name := PyStr "Petty Cash";
                         Entry_Account_Type := "asset" |})),
          fst (run (classify_entry Sample.tree
                      {| Entry_Name := PyStr "Petty Cash";
                         Entry_Account_Type := "ASSET" |})) with
    | inr r, inr r' =>
        primaryClassification r = primaryClassification r'
        ∧ secondaryClassification r = secondaryClassification r'
        ∧ tertiaryClassification r = tertiaryClassification r'
        ∧ confidence r = confidence r'
    | inl x, inl x' => x = x'
    | _, _ => False
    end.
Proof.
  assert (equal_ignoring_case "asset" "ASSET") as Heq
    by (apply (bool_decide_unpack _); by vm_compute).
  split; [exact Heq|].
  exact (account_type_case_is_irrelevant Sample.tree (PyStr "Petty Cash")
           "asset" "ASSET" Heq).
Defined.

Lemma relevant_rows_app cls1 cls2 t :
  relevant_rows (cls1 ++ cls2)%list t
  = (relevant_rows cls1 t ++ relevant_rows cls2 t)%list.
Proof. unfold relevant_rows. apply filter_app. Qed.

(** X16. Rows of other account types never influence an entry: putting
    such rows before or after the table changes neither the result nor the
    matcher call. *)
Theorem other_account_types_are_ignored (cls others : list ClassificationRow)
    (e : EntryRow) :
  (∀ r, r ∈ others →
        ¬ equal_ignoring_case (Account_Type r) (Entry_Account_Type e)) →
  run (classify_entry (others ++ cls)%list e) = run (classify_entry cls e)
  ∧ run (classify_entry (cls ++ others)%list e) = run (classify_entry cls e).
Proof.
  intros Hnone%relevant_rows_nil.
  rewrite !classify_entry_run, !relevant_rows_app, Hnone.
  by rewrite app_nil_r.
Qed.

Lemma other_account_types_are_ignored_witness :
  (∀ r, r ∈ [Sample.loan_row] →
        ¬ equal_ignoring_case (Account_Type r)
            (Entry_Account_Type Sample.cash_entry))
  ∧ run (classify_entry ([Sample.loan_row] ++ [Sample.cash_row])%list
           Sample.cash_entry)
    = run (classify_entry [Sample.cash_row] Sample.cash_entry)
  ∧ run (classify_entry ([Sample.cash_row] ++ [Sample.loan_row])%list
           Sample.cash_entry)
    = run (classify_entry [Sample.cash_row] Sample.cash_entry).
Proof.
  assert (∀ r, r ∈ [Sample.loan_row] →
               ¬ equal_ignoring_case (Account_Type r)
                   (Entry_Account_Type Sample.cash_entry)) as Hnone.
  { apply Forall_forall. apply (bool_decide_unpack _). by vm_compute. }
  split; [exact Hnone|].
  exact (other_account_types_are_ignored [Sample.cash_row] [Sample.loan_row]
           Sample.cash_entry Hnone).
Defined.

(** X17. An entry whose name has the tokens of a label of one of its
    candidate rows (and has a token at all) is classified, with
    confidence 1. *)
Theorem exact_label_gives_full_confidence (cls : list ClassificationRow)
    (e : EntryRow) (row : ClassificationRow) (label : pyval) :
  row ∈ cls →
  equal_ignoring_case (Account_Type row) (Entry_Account_Type e) →
  label ∈ labels row →
  token_set label = token_set (Entry_Name e) →
  token_set (Entry_Name e) ≠ ∅ →
  ∃ r, fst (run (classify_entry cls e)) = inr r ∧ confidence r = 1%Qc.
Proof.
  intros Hcls Hcase Hl Heq Hne.
  assert (row ∈ relevant_rows cls (Entry_Account_Type e)) as Hin
    by by apply relevant_rows_elem_of.
  destruct (find_best_match_exact (Entry_Name e) _ row label Hin Hl Heq Hne)
    as [d Hd].
  rewrite classify_entry_run.
  destruct (relevant_rows _ _) as [|row0 rows]; [by apply elem_of_nil in Hin|].
  cbv zeta. rewrite Hd. by eexists.
Qed.

Lemma exact_label_gives_full_confidence_witness :
  Sample.receivable_row ∈ Sample.tree
  ∧ equal_ignoring_case (Account_Type Sample.receivable_row)
      (Entry_Account_Type Sample.receivable_entry)
  ∧ PyStr "Accounts Receivable" ∈ labels Sample.receivable_row
  ∧ token_set (PyStr "Accounts Receivable")
    = token_set (Entry_Name Sample.receivable_entry)
  ∧ token_set (Entry_Name Sample.receivable_entry) ≠ ∅
  ∧ ∃ r, fst (run (classify_entry Sample.tree Sample.receivable_entry))
         = inr r
         ∧ confidence r = 1%Qc.
Proof.
  assert (Sample.receivable_row ∈ Sample.tree)
    as Hcls by (right; right; left).
  assert (equal_ignoring_case (Account_Type Sample.receivable_row)
            (Entry_Account_Type Sample.receivable_entry))
    as Hcase by (apply (bool_decide_unpack _); by vm_compute).
  assert (PyStr "Accounts Receivable" ∈ labels Sample.receivable_row)
    as Hl by (right; right; left).
  assert (token_set (PyStr "Accounts Receivable")
          = token_set (Entry_Name Sample.receivable_entry))
    as Heq by reflexivity.
  assert (token_set (Entry_Name Sample.receivable_entry) ≠ ∅)
    as Hne by (apply (bool_decide_unpack _); by vm_compute).
  split; [exact Hcls|]. split; [exact Hcase|]. split; [exact Hl|].
  split; [exact Heq|]. split; [exact Hne|].
  exact (exact_label_gives_full_confidence _ _ _ _ Hcls Hcase Hl Heq Hne).
Defined.

(** X18. Candidate rows added at the end never lower the score of the
    matcher, and they leave its answer as it was unless one of them scores
    strictly higher than the answer's score. *)
Theorem more_candidates_never_lower_the_score (entry : pyval)
    (rows more : list ClassificationRow) :
  (snd (find_best_match entry rows)
   ≤ snd (find_best_match entry (rows ++ more)%list))%Qc
  ∧ ((∀ x, x ∈ more →
           (row_similarity (normalize_text entry) x
            ≤ snd (find_best_match entry rows))%Qc) →
     find_best_match entry (rows ++ more)%list = find_best_match entry rows).
Proof.
  split.
  - destruct (find_best_match_spec entry rows)
      as [[Hst _]|(l1 & row & l2 & Hsplit & Hst & _)]; rewrite Hst; simpl.
    + apply find_best_match_bounds.
    + apply find_best_match_ge. rewrite Hsplit.
      apply elem_of_app. left. apply elem_of_app. right. left.
  - intros Hle. unfold find_best_match in *. rewrite fold_left_app.
    destruct (fold_left _ rows _) as [bm m]. simpl in Hle.
    by apply best_match_fold_keep.
Qed.

Lemma more_candidates_never_lower_the_score_witness :
  (∀ x, x ∈ [Sample.petty_row; Sample.receivable_row] →
        (row_similarity (normalize_text (PyStr "Cash")) x
         ≤ snd (find_best_match (PyStr "Cash") [Sample.cash_row]))%Qc)
  ∧ find_best_match (PyStr "Cash")
      ([Sample.cash_row] ++ [Sample.petty_row; Sample.receivable_row])%list
    = find_best_match (PyStr "Cash") [Sample.cash_row].
Proof.
  assert (∀ x, x ∈ [Sample.petty_row; Sample.receivable_row] →
               (row_similarity (normalize_text (PyStr "Cash")) x
                ≤ snd (find_best_match (PyStr "Cash") [Sample.cash_row]))%Qc)
    as Hle.
  { apply Forall_forall. repeat constructor; by vm_compute. }
  split; [exact Hle|].
  exact (proj2 (more_candidates_never_lower_the_score (PyStr "Cash")
                  [Sample.cash_row]
                  [Sample.petty_row; Sample.receivable_row]) Hle).
Defined.
